(** * gfapi: the GlusterFS volume and descriptor bindings, modelled and verified

    The Go package is a thin layer over the native client library: every
    operation marshals its arguments, performs one or more calls through
    cgo and turns the status and [errno] it gets back into Go values.  The
    model keeps that shape.  A Go function is a tree of native calls
    ([Go A]); the native library is a handler that answers each call from a
    world of its own.  What a function passes to the library, in which
    order, and what it makes of the answers is read off the tree. *)

From Stdlib Require Import ZArith List String Ascii Bool Lia.
Import ListNotations.
Local Open Scope string_scope.
Local Open Scope list_scope.
Local Open Scope Z_scope.

(** ** Machine integers and bytes *)

(** A signed integer of [bits] bits, wrapped around. *)
Definition wrap_signed (bits z : Z) : Z :=
  (z + 2 ^ (bits - 1)) mod 2 ^ bits - 2 ^ (bits - 1).

(** An unsigned integer of [bits] bits, wrapped around. *)
Definition wrap_unsigned (bits z : Z) : Z := z mod 2 ^ bits.

(** Go's [int] and the C types of the native interface (linux/amd64). *)
Definition int : Z -> Z := wrap_signed 64.
Definition C_int : Z -> Z := wrap_signed 32.
Definition C_off_t : Z -> Z := wrap_signed 64.
Definition C_size_t : Z -> Z := wrap_unsigned 64.
Definition C_mode_t : Z -> Z := wrap_unsigned 32.

Definition byte : Type := ascii.

(** [byte(c)] for [c] an [int8]. *)
Definition byte_of_int8 (c : Z) : byte := ascii_of_N (Z.to_N (wrap_unsigned 8 c)).

(** [string(b)] for [b] a [[]byte]. *)
Definition string_of_bytes (b : list byte) : string := string_of_list_ascii b.

(** [len(b)] *)
Definition len {A : Type} (b : list A) : Z := Z.of_nat (List.length b).

(** ** Errors *)

Definition ENOENT : Z := 2.
Definition EEXIST : Z := 17.
Definition ENOTDIR : Z := 20.
Definition EISDIR : Z := 21.
Definition ENODATA : Z := 61.

(** Values of Go's [error] interface that the package produces: [nil], a
    [syscall.Errno], or a [*os.PathError]. *)
Inductive Error : Type :=
| nil_error
| Errno (e : Z)
| PathError (Op Path : string) (Err : Error).

(** [err == nil] *)
Definition is_nil (err : Error) : bool :=
  match err with nil_error => true | _ => false end.

(** [err == syscall.Errno(e)]: equal dynamic type and value. *)
Definition is_errno (err : Error) (e : Z) : bool :=
  match err with Errno e' => e' =? e | _ => false end.

(** The [error] cgo hands back with a call's result: [errno] after the call,
    [nil] when it is zero. *)
Definition cgo_err (errno : Z) : Error :=
  if errno =? 0 then nil_error else Errno errno.

(** Run-time panics of the Go code. *)
Inductive runtime_error : Type :=
| index_out_of_range (index length : Z)
| nil_dereference.

(** ** Data shared with the native library *)

(** [syscall.Stat_t] *)
Record Stat_t : Type := {
  Dev : Z; Ino : Z; Nlink : Z; Mode : Z; Uid : Z; Gid : Z;
  Rdev : Z; Size : Z; Blksize : Z; Blocks : Z
}.

Definition zero_Stat_t : Stat_t :=
  {| Dev := 0; Ino := 0; Nlink := 0; Mode := 0; Uid := 0; Gid := 0;
     Rdev := 0; Size := 0; Blksize := 0; Blocks := 0 |}.

(** [syscall.Dirent]; [Name] is the fixed [[256]int8] buffer. *)
Record Dirent : Type := {
  d_Ino : Z; d_Off : Z; d_Reclen : Z; d_Type : Z; Name : list Z
}.

(** Modelled from the spec: the type [Statvfs_t] is declared in the generated
    types file, which is not part of the sources at hand; the fields are the
    space and inode usage of a volume. *)
Record Statvfs_t : Type := {
  Bsize : Z; Frsize : Z; Blocks_total : Z; Bfree : Z; Bavail : Z;
  Files : Z; Ffree : Z; Favail : Z; Namemax : Z
}.

Definition FileMode : Type := Z.

(** Pointers handed to the native library.  [addr_slice b] is [&b[0]] for a
    non-empty [b] and gives access to the bytes of [b]. *)
Inductive pointer : Type :=
| NULL
| addr_zero
| addr_slice (b : list byte)
| addr_statvfs (s : Statvfs_t).

(** Opaque native handles: [*C.glfs_t] and [*C.glfs_fd_t], [None] for nil. *)
Definition glfs_t_ptr : Type := option nat.
Definition glfs_fd_ptr : Type := option nat.

(** [type Volume struct { fs *C.glfs_t }] *)
Record Volume : Type := { fs : glfs_t_ptr }.

(** [type Fd struct { fd *C.glfs_fd_t }] *)
Record Fd : Type := { fd : glfs_fd_ptr }.

(** Modelled from the spec: the struct [File] is declared in a file of the
    package that is not at hand.  A descriptor keeps the path it was opened
    with, the native handle and the directory flag, in the order of the
    literal [&File{name, Fd{cfd}, isDir}]. *)
Record File : Type := { name : string; File_Fd : Fd; isDir : bool }.

(** ** The native call surface

    One constructor per function of [glfs.h] that the modelled code calls,
    indexed by what comes back: the C return value, what the library stored
    through an out pointer, and [errno] after the call (always last). *)
Inductive glfs : Type -> Type :=
| glfs_stat (fs : glfs_t_ptr) (path : string) : glfs (Z * option Stat_t * Z)
| glfs_lstat (fs : glfs_t_ptr) (path : string) : glfs (Z * option Stat_t * Z)
| glfs_mkdir (fs : glfs_t_ptr) (path : string) (mode : Z) : glfs (Z * Z)
| glfs_open (fs : glfs_t_ptr) (path : string) (flags : Z) : glfs (glfs_fd_ptr * Z)
| glfs_creat (fs : glfs_t_ptr) (path : string) (flags mode : Z) : glfs (glfs_fd_ptr * Z)
| glfs_opendir (fs : glfs_t_ptr) (path : string) : glfs (glfs_fd_ptr * Z)
| glfs_getxattr (fs : glfs_t_ptr) (path attr : string) (value : pointer) (size : Z)
  : glfs (Z * list byte * Z)
| glfs_fgetxattr (fd : glfs_fd_ptr) (attr : string) (value : pointer) (size : Z)
  : glfs (Z * list byte * Z)
| glfs_statvfs (fs : glfs_t_ptr) (path : string) (buf : pointer)
  : glfs (Z * option Statvfs_t * Z)
| glfs_readlink (fs : glfs_t_ptr) (path : string) (buf : pointer) (bufsiz : Z)
  : glfs (Z * list byte * Z)
| glfs_pread (fd : glfs_fd_ptr) (buf : pointer) (count offset flags : Z) (poststat : pointer)
  : glfs (Z * list byte * Z)
| glfs_pwrite (fd : glfs_fd_ptr) (buf : pointer) (count offset flags : Z)
    (prestat poststat : pointer) : glfs (Z * Z)
| glfs_read (fd : glfs_fd_ptr) (buf : pointer) (count flags : Z) : glfs (Z * list byte * Z)
| glfs_write (fd : glfs_fd_ptr) (buf : pointer) (count flags : Z) : glfs (Z * Z)
| glfs_readdirplus (fd : glfs_fd_ptr) : glfs (option Dirent * option Stat_t * Z)
| glfs_readdir (fd : glfs_fd_ptr) : glfs (option Dirent * Z).

(** ** Go computations *)

(** A computation either returns, panics, performs a native call and goes on
    with the answer, or has used up the gas of an unbounded loop. *)
Inductive Go (A : Type) : Type :=
| Return (a : A)
| Panic (e : runtime_error)
| Cgo (X : Type) (c : glfs X) (k : X -> Go A)
| Diverge.

Arguments Return {A} a.
Arguments Panic {A} e.
Arguments Cgo {A X} c k.
Arguments Diverge {A}.

Fixpoint bind {A B : Type} (m : Go A) (f : A -> Go B) : Go B :=
  match m with
  | Return a => f a
  | Panic e => Panic e
  | Cgo c k => Cgo c (fun x => bind (k x) f)
  | Diverge => Diverge
  end.

Notation "x <- m ;; k" := (bind m (fun x => k))
  (at level 61, m at next level, right associativity).
Notation "' pat <- m ;; k" := (bind m (fun x => match x with pat => k end))
  (at level 61, pat pattern, m at next level, right associativity).

(** [C.f(args)] in a two-value context. *)
Definition cgo {X : Type} (c : glfs X) : Go X := Cgo c Return.

(** [unsafe.Pointer(&b[0])]: indexing panics when [b] is empty. *)
Definition addr_index0 (b : list byte) : Go pointer :=
  match b with
  | [] => Panic (index_out_of_range 0 0)
  | _ :: _ => Return (addr_slice b)
  end.

(** What a Go buffer holds after the library stored [data] at its start. *)
Definition fill (b data : list byte) : list byte :=
  firstn (List.length b) (data ++ skipn (List.length data) b).

(** What a stat buffer holds after a call that may have written it. *)
Definition stored {A : Type} (old : A) (written : option A) : A :=
  match written with Some s => s | None => old end.

(** ** Running a computation against a model of the library *)

(** A model of the library answers every call from its world. *)
Definition handler (W : Type) : Type := forall X : Type, glfs X -> W -> X * W.

(** A call together with its answer. *)
Inductive event : Type :=
| Ev (X : Type) (c : glfs X) (x : X).

Arguments Ev {X} c x.

Inductive outcome (A : Type) : Type :=
| Done (a : A)
| Panicked (e : runtime_error)
| OutOfGas.

Arguments Done {A} a.
Arguments Panicked {A} e.
Arguments OutOfGas {A}.

(** The outcome, the final world and the calls made, in order. *)
Fixpoint run {W A : Type} (h : handler W) (m : Go A) (w : W)
  : outcome A * W * list event :=
  match m with
  | Return a => (Done a, w, [])
  | Panic e => (Panicked e, w, [])
  | Diverge => (OutOfGas, w, [])
  | Cgo c k =>
      let '(x, w1) := h _ c w in
      let '(o, w2, tr) := run h (k x) w1 in
      (o, w2, Ev c x :: tr)
  end.

(** Sequencing of runs: what [run] makes of [bind]. *)
Definition and_then {W A B : Type} (r : outcome A * W * list event)
    (k : A -> W -> outcome B * W * list event) : outcome B * W * list event :=
  match r with
  | (Done a, w1, t1) => let '(o, w2, t2) := k a w1 in (o, w2, t1 ++ t2)
  | (Panicked e, w1, t1) => (Panicked e, w1, t1)
  | (OutOfGas, w1, t1) => (OutOfGas, w1, t1)
  end.

(** ** Parsing a raw directory entry *)

(** The loop of [direntName]: [for i, c := range dirent.Name]. *)
Fixpoint direntName_loop (i : Z) (cs : list Z) (name : list byte) : list byte :=
  match cs with
  | [] => name
  | c :: cs' =>
      if (c =? 0) || (i >? 255) then name
      else direntName_loop (i + 1) cs' (name ++ [byte_of_int8 c])
  end.

(** [func direntName(dirent *syscall.Dirent) string] *)
Definition direntName (dirent : Dirent) : string :=
  let name := [] in
  string_of_bytes (direntName_loop 0 (Name dirent) name).

(** The name as the specification words it: the bytes of the buffer up to
    the first zero byte or the declared limit, whichever comes first. *)
Fixpoint until_zero (cs : list Z) : list Z :=
  match cs with
  | [] => []
  | c :: cs' => if c =? 0 then [] else c :: until_zero cs'
  end.

Definition bounded_name (limit : nat) (buffer : list Z) : list byte :=
  map byte_of_int8 (until_zero (firstn limit buffer)).

(** ** The stat translator

    [fileInfoFromStat], the [IsDir] method of what it returns and [posixMode]
    are defined in files of the package that are not at hand; the code below
    is modelled over any implementation of them. *)
Class StatTranslator : Type := {
  FileInfo : Type;
  fileInfoFromStat : Stat_t -> string -> FileInfo;
  IsDir : FileInfo -> bool;
  posixMode : FileMode -> Z
}.

Section Volume.

Context {ST : StatTranslator}.

(** [dir.IsDir()] on an [os.FileInfo] that may be the nil interface. *)
Definition call_IsDir (dir : option FileInfo) : Go bool :=
  match dir with
  | Some d => Return (IsDir d)
  | None => Panic nil_dereference
  end.

(** [func (v *Volume) Lstat(name string) (os.FileInfo, error)] *)
Definition Lstat (v : Volume) (name : string) : Go (option FileInfo * Error) :=
  let stat := zero_Stat_t in
  '(ret, written, errno) <- cgo (glfs_lstat (fs v) name) ;;
  let stat := stored stat written in
  let err := cgo_err errno in
  if ret <? 0 then Return (None, err)
  else Return (Some (fileInfoFromStat stat name), nil_error).

(** [func (v *Volume) Stat(name string) (os.FileInfo, error)] *)
Definition Stat (v : Volume) (name : string) : Go (option FileInfo * Error) :=
  let stat := zero_Stat_t in
  '(ret, written, errno) <- cgo (glfs_stat (fs v) name) ;;
  let stat := stored stat written in
  let err := cgo_err errno in
  if ret <? 0 then Return (None, PathError "stat" name err)
  else Return (Some (fileInfoFromStat stat name), nil_error).

(** [func (v *Volume) Mkdir(name string, perm os.FileMode) error] *)
Definition Mkdir (v : Volume) (name : string) (perm : FileMode) : Go Error :=
  '(ret, errno) <- cgo (glfs_mkdir (fs v) name (C_mode_t (posixMode perm))) ;;
  let err := cgo_err errno in
  if negb (ret =? 0) then Return (PathError "mkdir" name err)
  else Return nil_error.

(** [os.IsPathSeparator] *)
Definition IsPathSeparator (c : byte) : bool := Ascii.eqb c "/"%char.

(** [path[i]] for an index within the string. *)
Definition byte_at (path : string) (i : nat) : byte :=
  match String.get i path with Some c => c | None => zero end.

(** [for i > 0 && os.IsPathSeparator(path[i-1]) { i-- }] *)
Fixpoint skip_trailing_separators (path : string) (i : nat) : nat :=
  match i with
  | O => O
  | S i' =>
      if IsPathSeparator (byte_at path i') then skip_trailing_separators path i'
      else i
  end.

(** [for j > 0 && !os.IsPathSeparator(path[j-1]) { j-- }] *)
Fixpoint scan_back_over_element (path : string) (j : nat) : nat :=
  match j with
  | O => O
  | S j' =>
      if negb (IsPathSeparator (byte_at path j')) then scan_back_over_element path j'
      else j
  end.

(** The [j] of [MkdirAll]'s slow path: where the last element of [path]
    starts. *)
Definition element_start (path : string) : nat :=
  let i := skip_trailing_separators path (String.length path) in
  scan_back_over_element path i.

(** [MkdirAll] calls itself on [path[0:j-1]], a strictly shorter string;
    [depth] bounds the nesting and [MkdirAll] below starts it at
    [len(path)], which is never used up.  The parent step yields nil when
    there is no parent to ensure ([j <= 1]). *)
Fixpoint MkdirAll_at (depth : nat) (v : Volume) (path : string) (perm : FileMode)
  : Go Error :=
  (* Fast path: if we can tell whether path is a directory or file, stop. *)
  '(dir, err) <- Stat v path ;;
  if is_nil err then
    d <- call_IsDir dir ;;
    if d then Return nil_error
    else Return (PathError "mkdir" path (Errno ENOTDIR))
  else
    (* Slow path: make sure parent exists and then call Mkdir for path. *)
    let j := element_start path in
    err <- (if (1 <? j)%nat then
              (* Create parent *)
              match depth with
              | S depth' => MkdirAll_at depth' v (substring 0 (j - 1) path) perm
              | O => Diverge
              end
            else Return nil_error) ;;
    if negb (is_nil err) then Return err
    else
      (* Parent now exists; invoke Mkdir and use its result. *)
      err <- Mkdir v path perm ;;
      if negb (is_nil err) then
        '(dir, err1) <- Lstat v path ;;
        if is_nil err1 then
          d <- call_IsDir dir ;;
          if d then Return nil_error else Return err
        else Return err
      else Return nil_error.

(** The last step of [MkdirAll] on its own: create the target, and look again
    when that fails. *)
Definition create_target (v : Volume) (path : string) (perm : FileMode) : Go Error :=
  err <- Mkdir v path perm ;;
  if negb (is_nil err) then
    '(dir, err1) <- Lstat v path ;;
    if is_nil err1 then
      d <- call_IsDir dir ;;
      if d then Return nil_error else Return err
    else Return err
  else Return nil_error.

(** [func (v *Volume) MkdirAll(path string, perm os.FileMode) error] *)
Definition MkdirAll (v : Volume) (path : string) (perm : FileMode) : Go Error :=
  MkdirAll_at (String.length path) v path perm.

(** [os.O_CREATE] *)
Definition O_CREATE : Z := 64.

(** [cfd == nil] *)
Definition is_NULL {A : Type} (p : option A) : bool :=
  match p with None => true | Some _ => false end.

(** [func (v *Volume) Open(name string, flags int) ( *File, error)] *)
Definition Open (v : Volume) (name : string) (flags : Z) : Go (option File * Error) :=
  let isDir := false in
  '(cfd, errno) <- cgo (glfs_open (fs v) name (C_int flags)) ;;
  let err := cgo_err errno in
  (* Try to reopen using glfs_opendir if the given path is a directory *)
  '(isDir, cfd, err) <-
    (if is_errno err EISDIR then
       let isDir := true in
       '(cfd, errno) <- cgo (glfs_opendir (fs v) name) ;;
       Return (isDir, cfd, cgo_err errno)
     else Return (isDir, cfd, err)) ;;
  if is_NULL cfd then Return (None, PathError "open" name err)
  else Return (Some {| name := name; File_Fd := {| fd := cfd |}; isDir := isDir |},
               nil_error).

(** [func (v *Volume) OpenFile(name string, flags int, perm os.FileMode) ( *File, error)] *)
Definition OpenFile (v : Volume) (name : string) (flags : Z) (perm : FileMode)
  : Go (option File * Error) :=
  let isDir := false in
  '(cfd, errno) <-
    (if Z.land O_CREATE flags =? O_CREATE then
       cgo (glfs_creat (fs v) name (C_int flags) (C_mode_t (posixMode perm)))
     else cgo (glfs_open (fs v) name (C_int flags))) ;;
  let err := cgo_err errno in
  (* Try to reopen using glfs_opendir if the given path is a directory *)
  '(isDir, cfd, err) <-
    (if is_errno err EISDIR then
       let isDir := true in
       '(cfd, errno) <- cgo (glfs_opendir (fs v) name) ;;
       Return (isDir, cfd, cgo_err errno)
     else Return (isDir, cfd, err)) ;;
  if is_NULL cfd then Return (None, PathError "open" name err)
  else Return (Some {| name := name; File_Fd := {| fd := cfd |}; isDir := isDir |},
               nil_error).

(** [func (fd *Fd) Readdir(n int) ([]os.FileInfo, error)]; every turn of the
    loop takes one unit of [gas]. *)
Fixpoint Readdir_loop (gas : nat) (f : Fd) (n i : Z) (stat : Stat_t)
    (files : list FileInfo) : Go (list FileInfo * Error) :=
  match gas with
  | O => Diverge
  | S gas' =>
      if (n =? 0) || (i <? n) then
        '(d, written, errno) <- cgo (glfs_readdirplus (fd f)) ;;
        let stat := stored stat written in
        let err := cgo_err errno in
        if negb (is_nil err) then Return ([], err)
        else
          match d with
          | None => Return (files, nil_error)
          | Some dirent =>
              let name := direntName dirent in
              let file := fileInfoFromStat stat name in
              Readdir_loop gas' f n (int (i + 1)) stat (files ++ [file])
          end
      else Return (files, nil_error)
  end.

Definition Readdir (gas : nat) (f : Fd) (n : Z) : Go (list FileInfo * Error) :=
  Readdir_loop gas f n 0 zero_Stat_t [].

End Volume.

(** ** Path operations that need no stat translation *)

(** [func (v *Volume) Getxattr(path string, attr string, dest []byte) (int64, error)];
    the third component is [dest] after the call. *)
Definition Getxattr (v : Volume) (path attr : string) (dest : list byte)
  : Go (Z * Error * list byte) :=
  '(ret, data, errno) <-
    (if len dest <=? 0 then cgo (glfs_getxattr (fs v) path attr NULL 0)
     else
       p <- addr_index0 dest ;;
       cgo (glfs_getxattr (fs v) path attr p (C_size_t (len dest)))) ;;
  let err := cgo_err errno in
  let dest := if len dest <=? 0 then dest else fill dest data in
  if ret >=? 0 then Return (ret, nil_error, dest)
  else Return (ret, err, dest).

(** What [unsafe.Pointer(buf)] is for a [*Statvfs_t]. *)
Definition unsafe_Pointer_statvfs (buf : option Statvfs_t) : pointer :=
  match buf with None => NULL | Some s => addr_statvfs s end.

(** [func (v *Volume) Statvfs(path string) (buf *Statvfs_t, err error)]; the
    named result [buf] starts as the nil pointer and is never assigned. *)
Definition Statvfs (v : Volume) (path : string) : Go (option Statvfs_t * Error) :=
  let buf : option Statvfs_t := None in
  '(ret, written, errno) <- cgo (glfs_statvfs (fs v) path (unsafe_Pointer_statvfs buf)) ;;
  let buf := match buf with None => None | Some s => Some (stored s written) end in
  let err := cgo_err errno in
  let err := if ret =? 0 then nil_error else err in
  Return (buf, err).

(** [func (v *Volume) Readlink(path string) (string, error)]; [buf] is declared
    and never allocated. *)
Definition Readlink (v : Volume) (path : string) : Go (string * Error) :=
  let buf : list byte := [] in
  p <- addr_index0 buf ;;
  '(ret, data, errno) <- cgo (glfs_readlink (fs v) path p (C_size_t (len buf))) ;;
  let err := cgo_err errno in
  if ret <? 0 then Return (EmptyString, err)
  else Return (string_of_bytes (fill buf data), nil_error).

(** ** Operations on a descriptor *)

(** [func (fd *Fd) Pread(b []byte, off int64) (int, error)]; the third
    component is [b] after the call. *)
Definition Pread (f : Fd) (b : list byte) (off : Z) : Go (Z * Error * list byte) :=
  p <- addr_index0 b ;;
  '(n, data, errno) <- cgo (glfs_pread (fd f) p (C_size_t (len b)) (C_off_t off) 0 NULL) ;;
  Return (n, cgo_err errno, fill b data).

(** [func (fd *Fd) Pwrite(b []byte, off int64) (int, error)] *)
Definition Pwrite (f : Fd) (b : list byte) (off : Z) : Go (Z * Error) :=
  p <- addr_index0 b ;;
  '(n, errno) <- cgo (glfs_pwrite (fd f) p (C_size_t (len b)) (C_off_t off) 0 NULL NULL) ;;
  Return (n, cgo_err errno).

(** [func (fd *Fd) Read(b []byte) (n int, err error)] *)
Definition Read (f : Fd) (b : list byte) : Go (Z * Error * list byte) :=
  let err := nil_error in
  p0 <- (if len b >? 0 then addr_index0 b else Return addr_zero) ;;
  '(ret, data, errno) <- cgo (glfs_read (fd f) p0 (C_size_t (len b)) 0) ;;
  let e1 := cgo_err errno in
  let n := ret in
  let err := if n <? 0 then e1 else err in
  Return (n, err, if len b >? 0 then fill b data else b).

(** [func (fd *Fd) Write(b []byte) (n int, err error)] *)
Definition Write (f : Fd) (b : list byte) : Go (Z * Error) :=
  let err := nil_error in
  p0 <- (if len b >? 0 then addr_index0 b else Return addr_zero) ;;
  '(ret, errno) <- cgo (glfs_write (fd f) p0 (C_size_t (len b)) 0) ;;
  let e1 := cgo_err errno in
  let n := ret in
  let err := if n <? 0 then e1 else err in
  Return (n, err).

(** [func (fd *Fd) Fgetxattr(attr string, dest []byte) (int64, error)] *)
Definition Fgetxattr (f : Fd) (attr : string) (dest : list byte)
  : Go (Z * Error * list byte) :=
  '(ret, data, errno) <-
    (if len dest <=? 0 then cgo (glfs_fgetxattr (fd f) attr NULL 0)
     else
       p <- addr_index0 dest ;;
       cgo (glfs_fgetxattr (fd f) attr p (C_size_t (len dest)))) ;;
  let err := cgo_err errno in
  let dest := if len dest <=? 0 then dest else fill dest data in
  if ret >=? 0 then Return (ret, nil_error, dest)
  else Return (ret, err, dest).

(** [func (fd *Fd) Readdirnames(n int) ([]string, error)] *)
Fixpoint Readdirnames_loop (gas : nat) (f : Fd) (n i : Z) (names : list string)
  : Go (list string * Error) :=
  match gas with
  | O => Diverge
  | S gas' =>
      if (n =? 0) || (i <? n) then
        '(d, errno) <- cgo (glfs_readdir (fd f)) ;;
        let err := cgo_err errno in
        if negb (is_nil err) then Return ([], err)
        else
          match d with
          | None => Return (names, nil_error)
          | Some dirent =>
              let name := direntName dirent in
              Readdirnames_loop gas' f n (int (i + 1)) (names ++ [name])
          end
      else Return (names, nil_error)
  end.

Definition Readdirnames (gas : nat) (f : Fd) (n : Z) : Go (list string * Error) :=
  Readdirnames_loop gas f n 0 [].

(** ** Pages of a directory

    What a call with maximum count [n] is to return of the entries [es] not
    read yet, and what it is to leave: everything for [n = 0], at most [n]
    entries otherwise. *)
Definition page {A : Type} (n : Z) (es : list A) : list A :=
  if n =? 0 then es else firstn (Z.to_nat n) es.

Definition after_page {A : Type} (n : Z) (es : list A) : list A :=
  if n =? 0 then [] else skipn (Z.to_nat n) es.

(** ** Contracts of the native library

    The theorems about more than one call say what they need of the
    library.  These are the contracts, stated for any handler. *)

Section Contracts.

Context {ST : StatTranslator} {W : Type} (h : handler W).

(** The answer of a stat call says that [path] exists and is a directory. *)
Definition reports_directory (path : string) (answer : Z * option Stat_t * Z) : Prop :=
  let '(ret, written, _) := answer in
  0 <= ret /\ IsDir (fileInfoFromStat (stored zero_Stat_t written) path) = true.

(** The answer of a stat call says that [path] exists and is no directory. *)
Definition reports_non_directory (path : string) (answer : Z * option Stat_t * Z) : Prop :=
  let '(ret, written, _) := answer in
  0 <= ret /\ IsDir (fileInfoFromStat (stored zero_Stat_t written) path) = false.

(** What [MkdirAll] relies on when nobody else changes the volume: stat calls
    change nothing, a directory that was created is there for the next stat,
    and what lstat sees as a directory stat sees as one too. *)
Record namespace_contract (v : Volume) : Prop := {
  stat_reads_only :
    forall path w, snd (h _ (glfs_stat (fs v) path) w) = w;
  lstat_reads_only :
    forall path w, snd (h _ (glfs_lstat (fs v) path) w) = w;
  mkdir_makes_directory :
    forall path mode w errno w',
      h _ (glfs_mkdir (fs v) path mode) w = ((0, errno), w') ->
      reports_directory path (fst (h _ (glfs_stat (fs v) path) w'));
  lstat_directory_is_stat_directory :
    forall path w,
      reports_directory path (fst (h _ (glfs_lstat (fs v) path) w)) ->
      reports_directory path (fst (h _ (glfs_stat (fs v) path) w))
}.

(** [path[0:j-1]], the parent [MkdirAll] ensures first when [j > 1]. *)
Definition parent_path (path : string) : string :=
  substring 0 (element_start path - 1) path.

(** The descent of [MkdirAll] from [path] reaches [target]: stat fails on
    every path on the way, changing nothing, and each has a parent. *)
Inductive descends_to (v : Volume) (w : W) : string -> string -> Prop :=
| descends_here (path : string) : descends_to v w path path
| descends_up (path target : string) (ret errno : Z) (written : option Stat_t) :
    h _ (glfs_stat (fs v) path) w = ((ret, written, errno), w) ->
    ret < 0 ->
    (1 < element_start path)%nat ->
    descends_to v w (parent_path path) target ->
    descends_to v w path target.

(** The path a namespace call is about. *)
Definition path_of_call (e : event) : option string :=
  match e with
  | Ev c _ =>
      match c with
      | glfs_stat _ p | glfs_lstat _ p | glfs_mkdir _ p _ => Some p
      | _ => None
      end
  end.

(** The call is a stat of some path. *)
Definition is_stat_call (e : event) : Prop :=
  match e with
  | Ev (glfs_stat _ _) _ => True
  | _ => False
  end.

(** The call is [glfs_mkdir] on [path] and it failed. *)
Definition is_failed_mkdir (path : string) (e : event) : Prop :=
  match e with
  | Ev c x =>
      match c in glfs X return X -> Prop with
      | glfs_mkdir _ p _ => fun x => p = path /\ fst x <> 0
      | _ => fun _ => False
      end x
  end.

(** What [Open] and [OpenFile] make of their calls.  [first] is the file-open
    call and [prog] the function.  The flag of a descriptor that is returned
    is set exactly when the file-open call came back with [EISDIR] and the
    directory-open call that followed returned a handle; a directory is
    opened by the directory-open call; a handle that the file-open call
    returns without [EISDIR] is passed on with the flag unset. *)
Definition directory_flag_law (w : W) (v : Volume) (name : string)
    (first : glfs (glfs_fd_ptr * Z)) (prog : Go (option File * Error)) : Prop :=
  forall (cfd : glfs_fd_ptr) (errno : Z) (w1 : W),
    h _ first w = ((cfd, errno), w1) ->
    (forall file err w' tr,
        run h prog w = (Done (Some file, err), w', tr) ->
        err = nil_error /\
        (isDir file = true <->
         errno = EISDIR /\
         exists d errno2 w2,
           h _ (glfs_opendir (fs v) name) w1 = ((Some d, errno2), w2))) /\
    (errno = EISDIR ->
     forall d errno2 w2,
       h _ (glfs_opendir (fs v) name) w1 = ((Some d, errno2), w2) ->
       run h prog w
       = (Done (Some {| name := name; File_Fd := {| fd := Some d |}; isDir := true |},
                nil_error),
          w2, [Ev first (cfd, errno); Ev (glfs_opendir (fs v) name) (Some d, errno2)])) /\
    (errno <> EISDIR ->
     forall d, cfd = Some d ->
       run h prog w
       = (Done (Some {| name := name; File_Fd := {| fd := Some d |}; isDir := false |},
                nil_error),
          w1, [Ev first (cfd, errno)])).

(** The directory stream behind descriptor [f]: [remaining w = Some es] says
    that in world [w] the stream is open with the entries [es] not handed out
    yet.  Each read hands out the next one with [errno] left at zero; at the
    end a read returns the null pointer, again with [errno] zero, and the
    stream stays at its end. *)
Definition directory_stream (f : Fd)
    (remaining : W -> option (list (Dirent * Stat_t))) : Prop :=
  forall w es,
    remaining w = Some es ->
    match es with
    | [] =>
        (exists w',
            h _ (glfs_readdir (fd f)) w = ((None, 0), w') /\ remaining w' = Some []) /\
        (exists w' written,
            h _ (glfs_readdirplus (fd f)) w = ((None, written, 0), w') /\
            remaining w' = Some [])
    | (d, st) :: rest =>
        (exists w',
            h _ (glfs_readdir (fd f)) w = ((Some d, 0), w') /\ remaining w' = Some rest) /\
        (exists w',
            h _ (glfs_readdirplus (fd f)) w = ((Some d, Some st, 0), w') /\
            remaining w' = Some rest)
    end.

(** In world [w] the attribute [attr] of [path] has value [value], as
    [glfs_getxattr] presents it: a size-zero request is answered with the
    length and stores nothing, a request with room for the value is answered
    with the length and stores the value.  Neither changes the world. *)
Definition getxattr_serves (v : Volume) (w : W) (path attr : string) (value : list byte)
  : Prop :=
  (exists errno, h _ (glfs_getxattr (fs v) path attr NULL 0) w = ((len value, [], errno), w)) /\
  (forall b size, len value <= size ->
     exists errno,
       h _ (glfs_getxattr (fs v) path attr (addr_slice b) size) w
       = ((len value, value, errno), w)).

(** The same for [glfs_fgetxattr] on an open descriptor. *)
Definition fgetxattr_serves (f : Fd) (w : W) (attr : string) (value : list byte) : Prop :=
  (exists errno, h _ (glfs_fgetxattr (fd f) attr NULL 0) w = ((len value, [], errno), w)) /\
  (forall b size, len value <= size ->
     exists errno,
       h _ (glfs_fgetxattr (fd f) attr (addr_slice b) size) w
       = ((len value, value, errno), w)).

End Contracts.

(** ** A reference library: a volume kept in memory

    A small POSIX namespace that answers the native calls, for running the
    code on concrete inputs.  It keeps directories, regular files and
    symbolic links by normalised path, extended attributes, and the open
    directory streams; it keeps no file contents, follows symbolic links at
    the last component only and takes the name [..] as any other name. *)

Module MemFs.

Inductive node : Type :=
| Dir
| Reg
| Symlink (target : string).

Definition components : Type := list string.

Record world : Type := {
  nodes : list (components * node);
  xattrs : list (components * string * list byte);
  fds : list (nat * components);
  streams : list (nat * list (Dirent * Stat_t));
  next_fd : nat
}.

Definition EFAULT : Z := 14.
Definition EBADF : Z := 9.
Definition ERANGE : Z := 34.
Definition ENOSYS : Z := 38.
Definition ELOOP : Z := 40.

Definition S_IFMT : Z := 61440.
Definition S_IFDIR : Z := 16384.
Definition S_IFREG : Z := 32768.
Definition S_IFLNK : Z := 40960.

(** Modelled from the spec: the stat translator of the package (not at hand)
    turns a stat buffer into file metadata whose file-type flag comes from
    the mode bits; [posixMode] keeps the permission bits. *)
Record fileStat : Type := { stat_name : string; sys : Stat_t }.

Definition translator : StatTranslator := {|
  FileInfo := fileStat;
  fileInfoFromStat := fun st name => {| stat_name := name; sys := st |};
  IsDir := fun fi => Z.land (Mode (sys fi)) S_IFMT =? S_IFDIR;
  posixMode := fun m => Z.land m 511
|}.

Definition push (cur : string) (l : components) : components :=
  if (cur =? "")%string || (cur =? ".")%string then l else cur :: l.

(** The names between the separators of a path, without empty ones and
    without [.]. *)
Fixpoint split (s cur : string) : components :=
  match s with
  | EmptyString => push cur []
  | String c s' =>
      if Ascii.eqb c "/"%char then push cur (split s' "")
      else split s' (cur ++ String c "")%string
  end.

Definition normalise (path : string) : components := split path "".

Fixpoint components_eqb (a b : components) : bool :=
  match a, b with
  | [], [] => true
  | x :: a', y :: b' => (x =? y)%string && components_eqb a' b'
  | _, _ => false
  end.

Fixpoint lookup {A : Type} (k : components) (l : list (components * A)) : option A :=
  match l with
  | [] => None
  | (k', a) :: l' => if components_eqb k k' then Some a else lookup k l'
  end.

(** The root is always there. *)
Definition find (w : world) (k : components) : option node :=
  match k with
  | [] => Some Dir
  | _ => lookup k (nodes w)
  end.

(** Follow symbolic links at the last component, a bounded number of times. *)
Fixpoint resolve (hops : nat) (w : world) (k : components) : option node + Z :=
  match find w k with
  | Some (Symlink target) =>
      match hops with
      | O => inr ELOOP
      | S hops' => resolve hops' w (normalise target)
      end
  | other => inl other
  end.

(** Some proper prefix of [pre ++ rest] beyond [pre] is not a directory. *)
Fixpoint blocked (w : world) (pre rest : components) : bool :=
  match rest with
  | [] => false
  | c :: rest' =>
      match find w pre with
      | Some Dir => blocked w (pre ++ [c]) rest'
      | Some _ => true
      | None => false
      end
  end.

Definition errno_missing (w : world) (k : components) : Z :=
  if blocked w [] k then ENOTDIR else ENOENT.

Definition stat_of (n : node) : Stat_t :=
  let mode := match n with
              | Dir => Z.lor S_IFDIR 493
              | Reg => Z.lor S_IFREG 420
              | Symlink _ => Z.lor S_IFLNK 511
              end in
  {| Dev := 1; Ino := 0; Nlink := 1; Mode := mode; Uid := 0; Gid := 0;
     Rdev := 0; Size := 0; Blksize := 4096; Blocks := 0 |}.

Definition lstat_answer (w : world) (path : string) : Z * option Stat_t * Z :=
  if (path =? "")%string then (-1, None, ENOENT)
  else
    match find w (normalise path) with
    | Some n => (0, Some (stat_of n), 0)
    | None => (-1, None, errno_missing w (normalise path))
    end.

Definition stat_answer (w : world) (path : string) : Z * option Stat_t * Z :=
  if (path =? "")%string then (-1, None, ENOENT)
  else
    match resolve 40 w (normalise path) with
    | inl (Some n) => (0, Some (stat_of n), 0)
    | inl None => (-1, None, errno_missing w (normalise path))
    | inr e => (-1, None, e)
    end.

Definition add_node (w : world) (k : components) (n : node) : world :=
  {| nodes := (k, n) :: nodes w; xattrs := xattrs w; fds := fds w;
     streams := streams w; next_fd := next_fd w |}.

(** Creating an entry: the name must be free and its parent a directory. *)
Definition create (w : world) (path : string) (n : node) : Z * world :=
  if (path =? "")%string then (ENOENT, w)
  else
    let k := normalise path in
    match find w k with
    | Some _ => (EEXIST, w)
    | None =>
        match find w (removelast k) with
        | Some Dir => (0, add_node w k n)
        | Some _ => (ENOTDIR, w)
        | None => (errno_missing w k, w)
        end
    end.

Definition mkdir_answer (w : world) (path : string) : (Z * Z) * world :=
  let '(e, w') := create w path Dir in
  (if e =? 0 then (0, 0) else (-1, e), w').

Definition open_fd (w : world) (k : components) : glfs_fd_ptr * world :=
  (Some (next_fd w),
   {| nodes := nodes w; xattrs := xattrs w; fds := (next_fd w, k) :: fds w;
      streams := streams w; next_fd := S (next_fd w) |}).

Definition open_answer (w : world) (path : string) : (glfs_fd_ptr * Z) * world :=
  if (path =? "")%string then ((None, ENOENT), w)
  else
    match resolve 40 w (normalise path) with
    | inl (Some Dir) => ((None, EISDIR), w)
    | inl (Some _) => let '(p, w') := open_fd w (normalise path) in ((p, 0), w')
    | inl None => ((None, errno_missing w (normalise path)), w)
    | inr e => ((None, e), w)
    end.

Definition creat_answer (w : world) (path : string) : (glfs_fd_ptr * Z) * world :=
  let '(e, w') := create w path Reg in
  if (e =? 0) || negb (e =? EEXIST) then
    if e =? 0 then let '(p, w'') := open_fd w' (normalise path) in ((p, 0), w'')
    else ((None, e), w)
  else open_answer w path.

(** The raw name buffer of a directory entry: the bytes of the name, then
    zeros up to 256. *)
Definition name_buffer (s : string) : list Z :=
  let cs := map (fun c => wrap_signed 8 (Z.of_N (N_of_ascii c))) (list_ascii_of_string s) in
  firstn 256 (cs ++ repeat 0 (256 - List.length cs)).

Definition entry_of (s : string) (n : node) : Dirent * Stat_t :=
  ({| d_Ino := 0; d_Off := 0; d_Reclen := 280; d_Type := 0; Name := name_buffer s |},
   stat_of n).

(** The entries directly below [k]. *)
Fixpoint children (k : components) (l : list (components * node)) : list (Dirent * Stat_t) :=
  match l with
  | [] => []
  | (k', n) :: l' =>
      if components_eqb (removelast k') k && negb (components_eqb k' [])
      then entry_of (last k' "") n :: children k l'
      else children k l'
  end.

Definition opendir_answer (w : world) (path : string) : (glfs_fd_ptr * Z) * world :=
  if (path =? "")%string then ((None, ENOENT), w)
  else
    match resolve 40 w (normalise path) with
    | inl (Some Dir) =>
        ((Some (next_fd w), 0),
         {| nodes := nodes w; xattrs := xattrs w;
            fds := (next_fd w, normalise path) :: fds w;
            streams := (next_fd w, children (normalise path) (nodes w)) :: streams w;
            next_fd := S (next_fd w) |})
    | inl (Some _) => ((None, ENOTDIR), w)
    | inl None => ((None, errno_missing w (normalise path)), w)
    | inr e => ((None, e), w)
    end.

Fixpoint stream_of (d : nat) (l : list (nat * list (Dirent * Stat_t)))
  : option (list (Dirent * Stat_t)) :=
  match l with
  | [] => None
  | (d', es) :: l' => if Nat.eqb d d' then Some es else stream_of d l'
  end.

Definition set_stream (w : world) (d : nat) (es : list (Dirent * Stat_t)) : world :=
  {| nodes := nodes w; xattrs := xattrs w; fds := fds w;
     streams := (d, es) :: streams w; next_fd := next_fd w |}.

(** The entries of descriptor [p] still to be read, when it is an open
    directory stream. *)
Definition remaining (p : glfs_fd_ptr) (w : world) : option (list (Dirent * Stat_t)) :=
  match p with
  | Some d => stream_of d (streams w)
  | None => None
  end.

Definition readdir_answer (w : world) (p : glfs_fd_ptr)
  : (option Dirent * option Stat_t * Z) * world :=
  match p with
  | Some d =>
      match stream_of d (streams w) with
      | Some ((e, st) :: rest) => ((Some e, Some st, 0), set_stream w d rest)
      | Some [] => ((None, None, 0), w)
      | None => ((None, None, EBADF), w)
      end
  | None => ((None, None, EBADF), w)
  end.

Fixpoint xattr_of (k : components) (attr : string) (l : list (components * string * list byte))
  : option (list byte) :=
  match l with
  | [] => None
  | (k', a, value) :: l' =>
      if components_eqb k k' && (a =? attr)%string then Some value else xattr_of k attr l'
  end.

Definition xattr_answer (w : world) (k : option components) (attr : string)
    (value : pointer) (size : Z) : Z * list byte * Z :=
  match k with
  | None => (-1, [], EBADF)
  | Some k =>
      match xattr_of k attr (xattrs w) with
      | None => (-1, [], ENODATA)
      | Some bytes =>
          if size =? 0 then (len bytes, [], 0)
          else if size <? len bytes then (-1, [], ERANGE)
          else match value with
               | addr_slice _ => (len bytes, bytes, 0)
               | _ => (-1, [], EFAULT)
               end
      end
  end.

Fixpoint path_of_fd (d : nat) (l : list (nat * components)) : option components :=
  match l with
  | [] => None
  | (d', k) :: l' => if Nat.eqb d d' then Some k else path_of_fd d l'
  end.

Definition fd_path (w : world) (p : glfs_fd_ptr) : option components :=
  match p with Some d => path_of_fd d (fds w) | None => None end.

Definition path_known (w : world) (path : string) : option components :=
  if (path =? "")%string then None
  else match find w (normalise path) with Some _ => Some (normalise path) | None => None end.

(** The reference library. *)
Definition answer : handler world :=
  fun X c w =>
    match c in glfs X return X * world with
    | glfs_stat _ path => (stat_answer w path, w)
    | glfs_lstat _ path => (lstat_answer w path, w)
    | glfs_mkdir _ path _ => mkdir_answer w path
    | glfs_open _ path _ => open_answer w path
    | glfs_creat _ path _ _ => creat_answer w path
    | glfs_opendir _ path => opendir_answer w path
    | glfs_getxattr _ path attr value size =>
        (xattr_answer w (path_known w path) attr value size, w)
    | glfs_fgetxattr p attr value size =>
        (xattr_answer w (fd_path w p) attr value size, w)
    | glfs_statvfs _ _ buf =>
        match buf with
        | NULL => ((-1, None, EFAULT), w)
        | _ => ((0, Some {| Bsize := 4096; Frsize := 4096; Blocks_total := 1024;
                            Bfree := 512; Bavail := 512; Files := 64; Ffree := 32;
                            Favail := 32; Namemax := 255 |}, 0), w)
        end
    | glfs_readlink _ path _ bufsiz =>
        match find w (normalise path) with
        | Some (Symlink target) =>
            let bytes := firstn (Z.to_nat bufsiz) (list_ascii_of_string target) in
            ((len bytes, bytes, 0), w)
        | _ => ((-1, [], 22), w)
        end
    | glfs_pread _ _ _ _ _ _ => ((-1, [], ENOSYS), w)
    | glfs_pwrite _ _ _ _ _ _ _ => ((-1, ENOSYS), w)
    | glfs_read _ _ _ _ => ((-1, [], ENOSYS), w)
    | glfs_write _ _ _ _ => ((-1, ENOSYS), w)
    | glfs_readdirplus p => readdir_answer w p
    | glfs_readdir p =>
        let '((d, _, e), w') := readdir_answer w p in ((d, e), w')
    end.

Definition empty : world :=
  {| nodes := []; xattrs := []; fds := []; streams := []; next_fd := 3 |}.

Definition volume : Volume := {| fs := Some 1%nat |}.

(** Some volumes: one where [/link] is a symbolic link to nothing, one with a
    directory [/a] and a regular file [/a/f] that carries an attribute and is
    open as descriptor 3, and one where descriptor 3 is a directory stream
    with five entries left. *)
Definition with_dangling_link : world :=
  add_node empty ["link"] (Symlink "/nowhere").

Definition with_file : world :=
  {| nodes := [(["a"; "f"], Reg); (["a"], Dir)];
     xattrs := [(["a"; "f"], "user.tag", list_ascii_of_string "blue")];
     fds := [(3%nat, ["a"; "f"])];
     streams := [];
     next_fd := 4 |}.

Definition five_entries : list (Dirent * Stat_t) :=
  [entry_of "one" Reg; entry_of "two" Reg; entry_of "three" Dir;
   entry_of "four" Reg; entry_of "five" Reg].

Definition with_listing : world :=
  {| nodes := []; xattrs := []; fds := [(3%nat, [])];
     streams := [(3%nat, five_entries)]; next_fd := 4 |}.

Definition descriptor : Fd := {| fd := Some 3%nat |}.

End MemFs.

(** ** More of the volume: creating files, and what [MkdirAll] may call *)

Section MoreOfVolume.

Context {ST : StatTranslator}.

(** [func (v *Volume) Create(name string, flags int, mode os.FileMode) ( *File, error)] *)
Definition Create (v : Volume) (name : string) (flags : Z) (mode : FileMode)
  : Go (option File * Error) :=
  '(cfd, errno) <- cgo (glfs_creat (fs v) name (C_int flags) (C_mode_t (posixMode mode))) ;;
  let err := cgo_err errno in
  if is_NULL cfd then Return (None, PathError "create" name err)
  else Return (Some {| name := name; File_Fd := {| fd := cfd |}; isDir := false |},
               nil_error).

(** [p] is the beginning of [path]. *)
Definition starts (path p : string) : Prop :=
  exists rest, path = (p ++ rest)%string.

(** A call [MkdirAll v path perm] may make: a stat, a non-following stat or
    a create call on the handle of [v], about a beginning of [path]; a create
    call carries the mode made of [perm]. *)
Definition call_of_MkdirAll (v : Volume) (path : string) (perm : FileMode) (e : event)
  : Prop :=
  match e with
  | Ev c _ =>
      match c with
      | glfs_stat f p | glfs_lstat f p => f = fs v /\ starts path p
      | glfs_mkdir f p mode =>
          f = fs v /\ starts path p /\ mode = C_mode_t (posixMode perm)
      | _ => False
      end
  end.

(** The call is a failed non-following stat that left [errno] at zero. *)
Definition is_lstat_failure_without_errno (e : event) : Prop :=
  match e with
  | Ev c x =>
      match c in glfs X return X -> Prop with
      | glfs_lstat _ _ => fun x => fst (fst x) < 0 /\ snd x = 0
      | _ => fun _ => False
      end x
  end.

(** The call is [glfs_readdirplus] on the descriptor of [f], the read of
    [Readdir]. *)
Definition is_readdirplus_of (f : Fd) (e : event) : Prop :=
  match e with
  | Ev c _ =>
      match c with
      | glfs_readdirplus p => p = fd f
      | _ => False
      end
  end.

(** The call is [glfs_readdir] on the descriptor of [f], the read of
    [Readdirnames]. *)
Definition is_readdir_of (f : Fd) (e : event) : Prop :=
  match e with
  | Ev c _ =>
      match c with
      | glfs_readdir p => p = fd f
      | _ => False
      end
  end.

End MoreOfVolume.

(** A library that fails every call and leaves [errno] at zero. *)
Definition silent_failure : handler unit :=
  fun X c w =>
    match c in glfs X return X * unit with
    | glfs_stat _ _ => ((-1, None, 0), w)
    | glfs_lstat _ _ => ((-1, None, 0), w)
    | glfs_mkdir _ _ _ => ((-1, 0), w)
    | glfs_open _ _ _ => ((None, 0), w)
    | glfs_creat _ _ _ _ => ((None, 0), w)
    | glfs_opendir _ _ => ((None, 0), w)
    | glfs_getxattr _ _ _ _ _ => ((-1, [], 0), w)
    | glfs_fgetxattr _ _ _ _ => ((-1, [], 0), w)
    | glfs_statvfs _ _ _ => ((-1, None, 0), w)
    | glfs_readlink _ _ _ _ => ((-1, [], 0), w)
    | glfs_pread _ _ _ _ _ _ => ((-1, [], 0), w)
    | glfs_pwrite _ _ _ _ _ _ _ => ((-1, 0), w)
    | glfs_read _ _ _ _ => ((-1, [], 0), w)
    | glfs_write _ _ _ _ => ((-1, 0), w)
    | glfs_readdirplus _ => ((None, None, 0), w)
    | glfs_readdir _ => ((None, 0), w)
    end.

(** A run of [k] path separators. *)
Fixpoint separators (k : nat) : string :=
  match k with
  | O => ""
  | S k' => String "/" (separators k')
  end.

(** No byte of [name] is a path separator. *)
Definition separator_free (name : string) : Prop :=
  forall i, (i < String.length name)%nat -> IsPathSeparator (byte_at name i) = false.

(** ** The rest of the package

    The functions below call parts of the native library that the ones above
    do not use, and [SetLogging] asks the host for a directory.  These calls
    have a family of their own, with computations, handlers and runs made the
    same way as above. *)

(** An argument of [fmt.Errorf]. *)
Inductive fmt_arg : Type :=
| fmt_int (n : Z)
| fmt_string (s : string)
| fmt_error (e : Error).

(** What a function of result type [error] returns: an error of the kinds
    above, or the result of [fmt.Errorf format args]. *)
Inductive error_value : Type :=
| plain (e : Error)
| Errorf (format : string) (args : list fmt_arg).

(** The calls, indexed by what comes back; for a native call [errno] after
    the call comes last.  [os_Stat] is the host's [os.Stat], of which the code
    looks at the error only. *)
Inductive foreign : Type -> Type :=
| glfs_new (volname : string) : foreign (glfs_t_ptr * Z)
| glfs_set_volfile_server (fs : glfs_t_ptr) (transport host : string) (port : Z)
  : foreign (Z * Z)
| glfs_set_volfile (fs : glfs_t_ptr) (volfile : string) : foreign (Z * Z)
| glfs_init (fs : glfs_t_ptr) : foreign (Z * Z)
| glfs_fini (fs : glfs_t_ptr) : foreign (Z * Z)
| glfs_set_logging (fs : glfs_t_ptr) (logfile : option string) (loglevel : Z)
  : foreign (Z * Z)
| os_Stat (name : string) : foreign Error
| glfs_chmod (fs : glfs_t_ptr) (path : string) (mode : Z) : foreign (Z * Z)
| glfs_chown (fs : glfs_t_ptr) (path : string) (uid gid : Z) : foreign (Z * Z)
| glfs_truncate (fs : glfs_t_ptr) (path : string) (length : Z) : foreign (Z * Z)
| glfs_unlink (fs : glfs_t_ptr) (path : string) : foreign (Z * Z)
| glfs_rmdir (fs : glfs_t_ptr) (path : string) : foreign (Z * Z)
| glfs_rename (fs : glfs_t_ptr) (oldpath newpath : string) : foreign (Z * Z)
| glfs_link (fs : glfs_t_ptr) (oldpath newpath : string) : foreign (Z * Z)
| glfs_symlink (fs : glfs_t_ptr) (oldpath newpath : string) : foreign (Z * Z)
| glfs_access (fs : glfs_t_ptr) (path : string) (mode : Z) : foreign (Z * Z)
| glfs_setxattr (fs : glfs_t_ptr) (path attr : string) (value : pointer) (size flags : Z)
  : foreign (Z * Z)
| glfs_removexattr (fs : glfs_t_ptr) (path attr : string) : foreign (Z * Z)
| glfs_listxattr (fs : glfs_t_ptr) (path : string) (value : pointer) (size : Z)
  : foreign (Z * list byte * Z)
| glfs_fchmod (fd : glfs_fd_ptr) (mode : Z) : foreign (Z * Z)
| glfs_fchown (fd : glfs_fd_ptr) (uid gid : Z) : foreign (Z * Z)
| glfs_fstat (fd : glfs_fd_ptr) : foreign (Z * option Stat_t * Z)
| glfs_fsync (fd : glfs_fd_ptr) (prestat poststat : pointer) : foreign (Z * Z)
| glfs_ftruncate (fd : glfs_fd_ptr) (length : Z) (prestat poststat : pointer)
  : foreign (Z * Z)
| glfs_lseek (fd : glfs_fd_ptr) (offset whence : Z) : foreign (Z * Z)
| glfs_fallocate (fd : glfs_fd_ptr) (keep_size offset len : Z) : foreign (Z * Z)
| glfs_fsetxattr (fd : glfs_fd_ptr) (attr : string) (value : pointer) (size flags : Z)
  : foreign (Z * Z)
| glfs_fremovexattr (fd : glfs_fd_ptr) (attr : string) : foreign (Z * Z).

(** A computation over these calls: it returns, panics, or makes a call and
    goes on with the answer. *)
Inductive Prog (A : Type) : Type :=
| Ret (a : A)
| Crash (e : runtime_error)
| Ask (X : Type) (c : foreign X) (k : X -> Prog A).

Arguments Ret {A} a.
Arguments Crash {A} e.
Arguments Ask {A X} c k.

Fixpoint and_so {A B : Type} (m : Prog A) (f : A -> Prog B) : Prog B :=
  match m with
  | Ret a => f a
  | Crash e => Crash e
  | Ask c k => Ask c (fun x => and_so (k x) f)
  end.

Notation "x <~ m ;; k" := (and_so m (fun x => k))
  (at level 61, m at next level, right associativity).
Notation "' pat <~ m ;; k" := (and_so m (fun x => match x with pat => k end))
  (at level 61, pat pattern, m at next level, right associativity).

Definition ask {X : Type} (c : foreign X) : Prog X := Ask c Ret.

(** [unsafe.Pointer(&data[0])] in such a computation. *)
Definition addr_first (b : list byte) : Prog pointer :=
  match b with
  | [] => Crash (index_out_of_range 0 0)
  | _ :: _ => Ret (addr_slice b)
  end.

Definition server (W : Type) : Type := forall X : Type, foreign X -> W -> X * W.

(** A call with its answer. *)
Inductive called : Type :=
| Called (X : Type) (c : foreign X) (x : X).

Arguments Called {X} c x.

(** The outcome, the final world and the calls made, in order. *)
Fixpoint exec {W A : Type} (h : server W) (m : Prog A) (w : W)
  : outcome A * W * list called :=
  match m with
  | Ret a => (Done a, w, [])
  | Crash e => (Panicked e, w, [])
  | Ask c k =>
      let '(x, w1) := h _ c w in
      let '(o, w2, tr) := exec h (k x) w1 in
      (o, w2, Called c x :: tr)
  end.

(** *** Setting up a volume *)

(** The loop of [Init]: [for i, host := range hosts]. *)
Fixpoint Init_hosts (fsp : glfs_t_ptr) (i total : Z) (hosts : list string)
  : Prog error_value :=
  match hosts with
  | [] => Ret (plain nil_error)
  | host :: rest =>
      '(ret, errno) <~ ask (glfs_set_volfile_server fsp "tcp" host 24007) ;;
      let err := cgo_err errno in
      if ret <? 0 then
        Ret (Errorf "error adding host %d of %d %q as a volserver: %s"
               [fmt_int i; fmt_int total; fmt_string host; fmt_error err])
      else Init_hosts fsp (i + 1) total rest
  end.

(** [func (v *Volume) Init(volname string, hosts ...string) error]; the first
    component is the volume after the call. *)
Definition Init (v : Volume) (volname : string) (hosts : list string)
  : Prog (Volume * error_value) :=
  '(p, _) <~ ask (glfs_new volname) ;;
  let v := {| fs := p |} in
  if is_NULL (fs v) then Ret (v, Errorf "error creating mount object" [])
  else
    err <~ Init_hosts (fs v) 0 (len hosts) hosts ;;
    Ret (v, err).

(** [func (v *Volume) InitWithVolfile(volname, volfile string) int] *)
Definition InitWithVolfile (v : Volume) (volname volfile : string) : Prog (Volume * Z) :=
  '(p, _) <~ ask (glfs_new volname) ;;
  let v := {| fs := p |} in
  '(ret, _) <~ ask (glfs_set_volfile (fs v) volfile) ;;
  Ret (v, ret).

(** [func (v *Volume) Mount() error] *)
Definition Mount (v : Volume) : Prog error_value :=
  '(ret, errno) <~ ask (glfs_init (fs v)) ;;
  let err := cgo_err errno in
  if ret <? 0 then Ret (Errorf "mount failed: %s" [fmt_error err])
  else Ret (plain nil_error).

(** [func (v *Volume) Unmount() error] *)
Definition Unmount (v : Volume) : Prog error_value :=
  '(ret, errno) <~ ask (glfs_fini (fs v)) ;;
  let err := cgo_err errno in
  if ret <? 0 then Ret (Errorf "failure to unmount volume: %s" [fmt_error err])
  else Ret (plain nil_error).

Section Logging.

(** [path.Dir] of the Go library. *)
Variable path_Dir : string -> string.

(** [func (v *Volume) SetLogging(name string, logLevel LogLevel) error] *)
Definition SetLogging (v : Volume) (name : string) (logLevel : Z) : Prog Error :=
  if (name =? "")%string then
    '(ret, errno) <~ ask (glfs_set_logging (fs v) None (C_int logLevel)) ;;
    let err := cgo_err errno in
    if ret <? 0 then Ret err else Ret nil_error
  else
    err <~ ask (os_Stat (path_Dir name)) ;;
    if negb (is_nil err) then Ret err
    else
      '(ret, errno) <~ ask (glfs_set_logging (fs v) (Some name) (C_int logLevel)) ;;
      let err := cgo_err errno in
      if ret <? 0 then Ret err else Ret nil_error.

End Logging.

(** *** Paths *)

Definition C_uid_t : Z -> Z := wrap_unsigned 32.
Definition C_gid_t : Z -> Z := wrap_unsigned 32.

Section PathCalls.

Context {ST : StatTranslator}.

(** [func (v *Volume) Chmod(name string, mode os.FileMode) error] *)
Definition Chmod (v : Volume) (name : string) (mode : FileMode) : Prog Error :=
  '(_, errno) <~ ask (glfs_chmod (fs v) name (C_mode_t (posixMode mode))) ;;
  Ret (cgo_err errno).

End PathCalls.

(** [func (v *Volume) Chown(name string, uid, gid int) error] *)
Definition Chown (v : Volume) (name : string) (uid gid : Z) : Prog Error :=
  '(_, errno) <~ ask (glfs_chown (fs v) name (C_uid_t uid) (C_gid_t gid)) ;;
  Ret (cgo_err errno).

(** [func (v *Volume) Truncate(name string, size int64) error] *)
Definition Truncate (v : Volume) (name : string) (size : Z) : Prog Error :=
  '(_, errno) <~ ask (glfs_truncate (fs v) name (C_off_t size)) ;;
  Ret (cgo_err errno).

(** [func (v *Volume) Unlink(path string) error] *)
Definition Unlink (v : Volume) (path : string) : Prog Error :=
  '(ret, errno) <~ ask (glfs_unlink (fs v) path) ;;
  let err := cgo_err errno in
  if ret <? 0 then Ret (PathError "unlink" path err) else Ret nil_error.

(** [func (v *Volume) Rmdir(path string) error] *)
Definition Rmdir (v : Volume) (path : string) : Prog Error :=
  '(ret, errno) <~ ask (glfs_rmdir (fs v) path) ;;
  let err := cgo_err errno in
  if negb (ret =? 0) then Ret (PathError "rmdir" path err) else Ret nil_error.

(** [func (v *Volume) Rename(oldpath string, newpath string) error] *)
Definition Rename (v : Volume) (oldpath newpath : string) : Prog Error :=
  '(ret, errno) <~ ask (glfs_rename (fs v) oldpath newpath) ;;
  let err := cgo_err errno in
  if ret <? 0 then Ret err else Ret nil_error.

(** [func (v *Volume) Link(oldpath string, newpath string) error] *)
Definition Link (v : Volume) (oldpath newpath : string) : Prog Error :=
  '(ret, errno) <~ ask (glfs_link (fs v) oldpath newpath) ;;
  let err := cgo_err errno in
  if ret <? 0 then Ret err else Ret nil_error.

(** [func (v *Volume) Symlink(oldpath string, newpath string) error] *)
Definition Symlink (v : Volume) (oldpath newpath : string) : Prog Error :=
  '(ret, errno) <~ ask (glfs_symlink (fs v) oldpath newpath) ;;
  let err := cgo_err errno in
  if ret <? 0 then Ret err else Ret nil_error.

(** [func (v *Volume) Access(path string, mode int) error] *)
Definition Access (v : Volume) (path : string) (mode : Z) : Prog Error :=
  '(ret, errno) <~ ask (glfs_access (fs v) path (C_int mode)) ;;
  let err := cgo_err errno in
  if ret <? 0 then Ret err else Ret nil_error.

(** [func (v *Volume) Setxattr(path string, attr string, data []byte, flags int) error] *)
Definition Setxattr (v : Volume) (path attr : string) (data : list byte) (flags : Z)
  : Prog Error :=
  p <~ addr_first data ;;
  '(ret, errno) <~ ask (glfs_setxattr (fs v) path attr p (C_size_t (len data))
                          (C_int flags)) ;;
  let err := cgo_err errno in
  let err := if ret =? 0 then nil_error else err in
  Ret err.

(** [func (v *Volume) Removexattr(path string, attr string) error] *)
Definition Removexattr (v : Volume) (path attr : string) : Prog Error :=
  '(ret, errno) <~ ask (glfs_removexattr (fs v) path attr) ;;
  let err := cgo_err errno in
  let err := if ret =? 0 then nil_error else err in
  Ret err.

(** [func (v *Volume) Listxattr(path string, dest []byte) (int64, error)]; the
    third component is [dest] after the call. *)
Definition Listxattr (v : Volume) (path : string) (dest : list byte)
  : Prog (Z * Error * list byte) :=
  '(ret, data, errno) <~
    (if len dest <=? 0 then ask (glfs_listxattr (fs v) path NULL 0)
     else
       p <~ addr_first dest ;;
       ask (glfs_listxattr (fs v) path p (C_size_t (len dest)))) ;;
  let err := cgo_err errno in
  let dest := if len dest <=? 0 then dest else fill dest data in
  Ret (ret, err, dest).

(** *** Descriptors *)

(** [func (fd *Fd) Fchmod(mode uint32) error] *)
Definition Fchmod (f : Fd) (mode : Z) : Prog Error :=
  '(_, errno) <~ ask (glfs_fchmod (fd f) (C_mode_t mode)) ;;
  Ret (cgo_err errno).

(** [func (fd *Fd) Fchown(uid, gid uint32) error] *)
Definition Fchown (f : Fd) (uid gid : Z) : Prog Error :=
  '(_, errno) <~ ask (glfs_fchown (fd f) (C_uid_t uid) (C_gid_t gid)) ;;
  Ret (cgo_err errno).

(** [func (fd *Fd) Fstat(stat *syscall.Stat_t) error]; the second component is
    what [stat] points to after the call. *)
Definition Fstat (f : Fd) (stat : Stat_t) : Prog (Error * Stat_t) :=
  '(ret, written, errno) <~ ask (glfs_fstat (fd f)) ;;
  let stat := stored stat written in
  let err := cgo_err errno in
  if ret <? 0 then Ret (err, stat) else Ret (nil_error, stat).

(** [func (fd *Fd) Fsync() error] *)
Definition Fsync (f : Fd) : Prog Error :=
  '(ret, errno) <~ ask (glfs_fsync (fd f) NULL NULL) ;;
  let err := cgo_err errno in
  if ret <? 0 then Ret err else Ret nil_error.

(** [func (fd *Fd) Ftruncate(size int64) error] *)
Definition Ftruncate (f : Fd) (size : Z) : Prog Error :=
  '(_, errno) <~ ask (glfs_ftruncate (fd f) (C_off_t size) NULL NULL) ;;
  Ret (cgo_err errno).

(** [func (fd *Fd) lseek(offset int64, whence int) (int64, error)] *)
Definition lseek (f : Fd) (offset whence : Z) : Prog (Z * Error) :=
  '(ret, errno) <~ ask (glfs_lseek (fd f) (C_off_t offset) (C_int whence)) ;;
  Ret (ret, cgo_err errno).

(** [func (fd *Fd) Fallocate(mode int, offset int64, len int64) error] *)
Definition Fallocate (f : Fd) (mode offset length : Z) : Prog Error :=
  '(ret, errno) <~ ask (glfs_fallocate (fd f) (C_int mode) (C_off_t offset)
                          (C_size_t length)) ;;
  let err := cgo_err errno in
  let err := if ret =? 0 then nil_error else err in
  Ret err.

(** [func (fd *Fd) Fsetxattr(attr string, data []byte, flags int) error] *)
Definition Fsetxattr (f : Fd) (attr : string) (data : list byte) (flags : Z) : Prog Error :=
  p <~ addr_first data ;;
  '(ret, errno) <~ ask (glfs_fsetxattr (fd f) attr p (C_size_t (len data)) (C_int flags)) ;;
  let err := cgo_err errno in
  let err := if ret =? 0 then nil_error else err in
  Ret err.

(** [func (fd *Fd) Fremovexattr(attr string) error] *)
Definition Fremovexattr (f : Fd) (attr : string) : Prog Error :=
  '(ret, errno) <~ ask (glfs_fremovexattr (fd f) attr) ;;
  let err := cgo_err errno in
  let err := if ret =? 0 then nil_error else err in
  Ret err.

(** The registrations of [hosts] with the answers they got, as calls. *)
Definition registrations (p : glfs_t_ptr) (hosts : list string) (answers : list (Z * Z))
  : list called :=
  map (fun ha => Called (glfs_set_volfile_server p "tcp" (fst ha) 24007) (snd ha))
      (combine hosts answers).

(** A server that refuses everything: no handle, status -1 and [errno] set
    to [ENOENT]. *)
Definition refusing : server unit :=
  fun X c w =>
    match c in foreign X return X * unit with
    | glfs_new _ => ((None, ENOENT), w)
    | os_Stat name => (PathError "stat" name (Errno ENOENT), w)
    | glfs_listxattr _ _ _ _ => ((-1, [], ENOENT), w)
    | glfs_fstat _ => ((-1, None, ENOENT), w)
    | glfs_set_volfile_server _ _ _ _ => ((-1, ENOENT), w)
    | glfs_set_volfile _ _ => ((-1, ENOENT), w)
    | glfs_init _ => ((-1, ENOENT), w)
    | glfs_fini _ => ((-1, ENOENT), w)
    | glfs_set_logging _ _ _ => ((-1, ENOENT), w)
    | glfs_chmod _ _ _ => ((-1, ENOENT), w)
    | glfs_chown _ _ _ _ => ((-1, ENOENT), w)
    | glfs_truncate _ _ _ => ((-1, ENOENT), w)
    | glfs_unlink _ _ => ((-1, ENOENT), w)
    | glfs_rmdir _ _ => ((-1, ENOENT), w)
    | glfs_rename _ _ _ => ((-1, ENOENT), w)
    | glfs_link _ _ _ => ((-1, ENOENT), w)
    | glfs_symlink _ _ _ => ((-1, ENOENT), w)
    | glfs_access _ _ _ => ((-1, ENOENT), w)
    | glfs_setxattr _ _ _ _ _ _ => ((-1, ENOENT), w)
    | glfs_removexattr _ _ _ => ((-1, ENOENT), w)
    | glfs_fchmod _ _ => ((-1, ENOENT), w)
    | glfs_fchown _ _ _ => ((-1, ENOENT), w)
    | glfs_fsync _ _ _ => ((-1, ENOENT), w)
    | glfs_ftruncate _ _ _ _ => ((-1, ENOENT), w)
    | glfs_lseek _ _ _ => ((-1, ENOENT), w)
    | glfs_fallocate _ _ _ _ => ((-1, ENOENT), w)
    | glfs_fsetxattr _ _ _ _ _ => ((-1, ENOENT), w)
    | glfs_fremovexattr _ _ => ((-1, ENOENT), w)
    end.

(** * Properties *)

(** ** Running computations *)

Lemma run_bind {W A B : Type} (h : handler W) (m : Go A) (f : A -> Go B) (w : W) :
  run h (bind m f) w = and_then (run h m w) (fun a w1 => run h (f a) w1).
Proof.
  revert w. induction m as [a | e | X c k IH | ]; intros w; simpl.
  - destruct (run h (f a) w) as [[o w2] t2]. reflexivity.
  - reflexivity.
  - destruct (h X c w) as [x w1]. rewrite IH.
    destruct (run h (k x) w1) as [[[a | e | ] w2] t1]; simpl; try reflexivity.
    destruct (run h (f a) w2) as [[o w3] t2]. reflexivity.
  - reflexivity.
Qed.

Lemma run_cgo {W X : Type} (h : handler W) (c : glfs X) (w : W) :
  run h (cgo c) w = (Done (fst (h X c w)), snd (h X c w), [Ev c (fst (h X c w))]).
Proof.
  unfold cgo. simpl. destruct (h X c w) as [x w1]. reflexivity.
Qed.

(** ** The name of a directory entry *)

Lemma direntName_loop_spec (cs : list Z) :
  forall (i : nat) (name : list byte),
    direntName_loop (Z.of_nat i) cs name
    = name ++ bounded_name (256 - i) cs.
Proof.
  unfold bounded_name.
  induction cs as [| c cs IH]; intros i name; cbn [direntName_loop].
  - rewrite firstn_nil. cbn [until_zero map]. now rewrite app_nil_r.
  - destruct (c =? 0) eqn:Hc; cbn [orb].
    + destruct (256 - i)%nat; cbn [firstn until_zero map];
        [| rewrite Hc]; now rewrite app_nil_r.
    + destruct (Z.of_nat i >? 255) eqn:Hi.
      * assert (256 - i = 0)%nat as -> by (apply Z.gtb_lt in Hi; lia).
        cbn [firstn until_zero map]. now rewrite app_nil_r.
      * assert (Z.of_nat i <= 255) as Hle.
        { destruct (Z.gtb_spec (Z.of_nat i) 255); [discriminate | lia]. }
        replace (Z.of_nat i + 1) with (Z.of_nat (S i)) by lia.
        rewrite IH.
        replace (256 - i)%nat with (S (256 - S i)) by lia.
        cbn [firstn until_zero map]. rewrite Hc.
        cbn [map]. now rewrite <- app_assoc.
Qed.

Lemma until_zero_nonzero (cs : list Z) :
  Forall (fun c => c <> 0) cs -> until_zero cs = cs.
Proof.
  induction 1 as [| c cs Hc _ IH]; cbn [until_zero]; [reflexivity |].
  destruct (Z.eqb_spec c 0); [contradiction | now rewrite IH].
Qed.

Lemma until_zero_at_zero (pre post : list Z) :
  Forall (fun c => c <> 0) pre -> until_zero (pre ++ 0 :: post) = pre.
Proof.
  induction 1 as [| c cs Hc _ IH]; cbn [until_zero app]; [reflexivity |].
  destruct (Z.eqb_spec c 0); [contradiction | now rewrite IH].
Qed.

Lemma string_of_bytes_length (b : list byte) :
  String.length (string_of_bytes b) = List.length b.
Proof.
  induction b as [| c b IH]; simpl; [reflexivity | now rewrite IH].
Qed.

(** C5.  The name parser yields the bytes of the name buffer up to the first
    zero byte or the limit of 256, whichever comes first.  A buffer of 256
    bytes none of which is zero is taken whole, all 256 bytes and nothing
    else; the bytes behind a zero byte are never part of the name. *)
Theorem direntName_bounded :
  (forall d : Dirent,
      direntName d = string_of_bytes (bounded_name 256 (Name d))) /\
  (forall d : Dirent,
      List.length (Name d) = 256%nat ->
      Forall (fun c => c <> 0) (Name d) ->
      direntName d = string_of_bytes (map byte_of_int8 (Name d)) /\
      String.length (direntName d) = 256%nat) /\
  (forall (d : Dirent) (pre post : list Z),
      Name d = pre ++ 0 :: post ->
      Forall (fun c => c <> 0) pre ->
      (List.length pre <= 256)%nat ->
      direntName d = string_of_bytes (map byte_of_int8 pre)).
Proof.
  assert (forall d, direntName d = string_of_bytes (bounded_name 256 (Name d))) as Hgen.
  { intros d. unfold direntName.
    change 0 with (Z.of_nat 0). rewrite direntName_loop_spec. reflexivity. }
  split; [exact Hgen | split].
  - intros d Hlen Hnz. rewrite Hgen. unfold bounded_name.
    rewrite <- Hlen, firstn_all, until_zero_nonzero by assumption.
    split; [reflexivity |].
    now rewrite string_of_bytes_length, length_map.
  - intros d pre post Hname Hnz Hlen. rewrite Hgen. unfold bounded_name.
    rewrite Hname.
    destruct (Nat.eq_dec (List.length pre) 256) as [Hfull | Hshort].
    + rewrite <- Hfull, firstn_app, firstn_all, Nat.sub_diag. simpl.
      rewrite app_nil_r. now rewrite until_zero_nonzero.
    + assert (firstn 256 (pre ++ 0 :: post)
              = pre ++ 0 :: firstn (255 - List.length pre) post) as ->.
      { rewrite firstn_app.
        rewrite firstn_all2 by lia.
        replace (256 - List.length pre)%nat with (S (255 - List.length pre)) by lia.
        reflexivity. }
      now rewrite until_zero_at_zero.
Qed.

Lemma direntName_bounded_witness :
  let full := {| d_Ino := 1; d_Off := 0; d_Reclen := 280; d_Type := 8;
                 Name := repeat 97 256 |} in
  direntName full = string_of_bytes (map byte_of_int8 (repeat 97 256)) /\
  String.length (direntName full) = 256%nat.
Proof.
  apply (proj1 (proj2 direntName_bounded)).
  - apply repeat_length.
  - apply Forall_forall. intros c Hc. apply repeat_spec in Hc. subst c. discriminate.
Defined.

(** ** Buffers of length zero *)

(** C6.  [Read] and [Write] hand the native call the address of the
    sentinel [_zero] when the buffer is empty.  [Pread] and [Pwrite] do not:
    they index the first element of the buffer whatever its length, so with an
    empty buffer they panic before any native call is made. *)
Theorem zero_length_buffer :
  forall (W : Type) (h : handler W) (w : W) (f : Fd) (off : Z),
    (exists x w',
        run h (Read f []) w
        = (Done (fst (fst x), if fst (fst x) <? 0 then cgo_err (snd x) else nil_error, []),
           w', [Ev (glfs_read (fd f) addr_zero 0 0) x])) /\
    (exists x w',
        run h (Write f []) w
        = (Done (fst x, if fst x <? 0 then cgo_err (snd x) else nil_error),
           w', [Ev (glfs_write (fd f) addr_zero 0 0) x])) /\
    run h (Pread f [] off) w = (Panicked (index_out_of_range 0 0), w, []) /\
    run h (Pwrite f [] off) w = (Panicked (index_out_of_range 0 0), w, []).
Proof.
  intros W h w f off. repeat split.
  - unfold Read. cbn.
    destruct (h _ (glfs_read (fd f) addr_zero 0 0) w) as [[[ret data] errno] w'] eqn:E.
    exists (ret, data, errno), w'. reflexivity.
  - unfold Write. cbn.
    destruct (h _ (glfs_write (fd f) addr_zero 0 0) w) as [[ret errno] w'] eqn:E.
    exists (ret, errno), w'. reflexivity.
Qed.

(** ** Reading a symbolic link *)

(** C7.  [Readlink] indexes the first element of a buffer it never
    allocated: whatever the path and the library, it panics with an index
    out of range and the native call is not made. *)
Theorem Readlink_indexes_empty_buffer :
  forall (W : Type) (h : handler W) (w : W) (v : Volume) (path : string),
    run h (Readlink v path) w = (Panicked (index_out_of_range 0 0), w, []).
Proof.
  intros W h w v path. reflexivity.
Qed.

(** ** File system statistics *)

(** C9.  [Statvfs] passes the null pointer to the native call and returns
    the nil buffer, also when the call reports success. *)
Theorem Statvfs_returns_nil_buffer :
  forall (W : Type) (h : handler W) (w : W) (v : Volume) (path : string),
  exists ret written errno w',
    h _ (glfs_statvfs (fs v) path NULL) w = ((ret, written, errno), w') /\
    run h (Statvfs v path) w
    = (Done (None, if ret =? 0 then nil_error else cgo_err errno), w',
       [Ev (glfs_statvfs (fs v) path NULL) (ret, written, errno)]).
Proof.
  intros W h w v path. unfold Statvfs. cbn.
  destruct (h _ (glfs_statvfs (fs v) path NULL) w) as [[[ret written] errno] w'] eqn:E.
  exists ret, written, errno, w'. split; reflexivity.
Qed.

(** ** Opening files and directories *)

Lemma is_errno_cgo_err (errno e : Z) :
  e <> 0 -> is_errno (cgo_err errno) e = (errno =? e).
Proof.
  intros He. unfold cgo_err.
  destruct (Z.eqb_spec errno 0) as [-> | Hnz]; cbn [is_errno]; [| reflexivity].
  symmetry. apply Z.eqb_neq. congruence.
Qed.

(** What follows the file-open call in [Open] and [OpenFile]. *)
Lemma open_tail_law {ST : StatTranslator} {W : Type} (h : handler W) (w : W)
    (v : Volume) (name : string) (first : glfs (glfs_fd_ptr * Z))
    (prog : Go (option File * Error)) :
  (forall w0, run h prog w0 = run h (
    '(cfd, errno) <- cgo first ;;
    let err := cgo_err errno in
    '(isDir, cfd, err) <-
      (if is_errno err EISDIR then
         '(cfd, errno) <- cgo (glfs_opendir (fs v) name) ;;
         Return (true, cfd, cgo_err errno)
       else Return (false, cfd, err)) ;;
    if is_NULL cfd then Return (None, PathError "open" name err)
    else Return (Some {| name := name; File_Fd := {| fd := cfd |}; isDir := isDir |},
                 nil_error)) w0) ->
  directory_flag_law h w v name first prog.
Proof.
  intros Hprog cfd errno w1 Hfirst.
  assert (EISDIR <> 0) as Hne by discriminate.
  rewrite Hprog. cbn. rewrite Hfirst. cbn.
  rewrite (is_errno_cgo_err errno EISDIR Hne).
  destruct (Z.eqb_spec errno EISDIR) as [He | He]; cbn.
  - destruct (h _ (glfs_opendir (fs v) name) w1) as [[cfd2 errno2] w2] eqn:Hdir.
    cbn. split; [| split].
    + intros file err w' tr Hrun.
      destruct cfd2 as [d |]; cbn in Hrun; inversion Hrun; subst.
      split; [reflexivity |]. cbn. split; [| reflexivity].
      intros _. split; [reflexivity |]. eexists _, _, _. reflexivity.
    + intros _ d e2 w3 Heq. inversion Heq; subst. reflexivity.
    + intros Hcontra. contradiction.
  - split; [| split].
    + intros file err w' tr Hrun.
      destruct cfd as [d |]; cbn in Hrun; inversion Hrun; subst.
      split; [reflexivity |]. cbn. split; [discriminate |].
      intros [Hcontra _]. contradiction.
    + intros Hcontra. contradiction.
    + intros _ d ->. reflexivity.
Qed.

(** C10.  For [Open] and for [OpenFile], a descriptor that is returned has
    its directory flag set exactly when the file-open call reported [EISDIR]
    and the directory-open call then returned a handle; a path that names a
    directory is thus opened through the directory-open call, and a handle
    from the file-open call itself always carries an unset flag. *)
Theorem Open_directory_flag :
  forall {ST : StatTranslator} (W : Type) (h : handler W) (w : W)
         (v : Volume) (name : string) (flags : Z) (perm : FileMode),
    directory_flag_law h w v name
      (glfs_open (fs v) name (C_int flags)) (Open v name flags) /\
    directory_flag_law h w v name
      (if Z.land O_CREATE flags =? O_CREATE
       then glfs_creat (fs v) name (C_int flags) (C_mode_t (posixMode perm))
       else glfs_open (fs v) name (C_int flags))
      (OpenFile v name flags perm).
Proof.
  intros ST W h w v name flags perm. split; apply open_tail_law; intros w0.
  - reflexivity.
  - unfold OpenFile.
    destruct (Z.land O_CREATE flags =? O_CREATE); reflexivity.
Qed.

(** ** Extended attributes *)

Lemma C_size_t_len {A : Type} (b : list A) :
  len b < 2 ^ 63 -> C_size_t (len b) = len b.
Proof.
  intros Hb. unfold C_size_t, wrap_unsigned, len in *.
  apply Z.mod_small. split; [lia |].
  eapply Z.lt_trans; [exact Hb | reflexivity].
Qed.

(** What [Getxattr] and [Fgetxattr] have in common: the call [query] with the
    null pointer and size zero, the call [get] with the buffer. *)
Lemma xattr_get_law {W : Type} (h : handler W) (w : W)
    (call : pointer -> Z -> glfs (Z * list byte * Z))
    (prog : list byte -> Go (Z * Error * list byte)) (value : list byte) :
  (forall dest w0, run h (prog dest) w0 = run h (
     '(ret, data, errno) <-
       (if len dest <=? 0 then cgo (call NULL 0)
        else p <- addr_index0 dest ;; cgo (call p (C_size_t (len dest)))) ;;
     let err := cgo_err errno in
     let dest := if len dest <=? 0 then dest else fill dest data in
     if ret >=? 0 then Return (ret, nil_error, dest)
     else Return (ret, err, dest)) w0) ->
  (exists errno, h _ (call NULL 0) w = ((len value, [], errno), w)) ->
  (forall b size, len value <= size ->
     exists errno, h _ (call (addr_slice b) size) w = ((len value, value, errno), w)) ->
  (exists errno,
      run h (prog []) w
      = (Done (len value, nil_error, []), w, [Ev (call NULL 0) (len value, [], errno)])) /\
  (forall dest, len value <= len dest < 2 ^ 63 ->
     exists tr,
       run h (prog dest) w = (Done (len value, nil_error, fill dest value), w, tr)).
Proof.
  intros Hprog [errno0 Hquery] Hget.
  assert ((len value >=? 0) = true) as Hpos.
  { unfold len. apply Z.geb_le. lia. }
  split.
  - exists errno0. rewrite Hprog. cbn. rewrite Hquery. cbn.
    rewrite Hpos. reflexivity.
  - intros dest [Hroom Hint]. rewrite Hprog.
    destruct dest as [| c dest].
    + cbn. rewrite Hquery. cbn. rewrite Hpos.
      assert (value = []) as ->.
      { destruct value; [reflexivity |]. unfold len in Hroom. cbn in Hroom. lia. }
      eexists. reflexivity.
    + assert ((len (c :: dest) <=? 0) = false) as Hne.
      { apply Z.leb_gt. unfold len. cbn [List.length]. lia. }
      rewrite Hne. rewrite (C_size_t_len (c :: dest) Hint).
      destruct (Hget (c :: dest) (len (c :: dest)) Hroom) as [errno1 Hanswer].
      cbn [addr_index0]. rewrite !run_bind. cbn [run and_then].
      rewrite run_cgo, Hanswer. cbn. rewrite Hpos.
      eexists. reflexivity.
Qed.

(** C8.  With a destination of length zero [Getxattr] and [Fgetxattr] ask
    the library for the size only: the call carries the null pointer and size
    zero, the result is the length of the attribute with a nil error and the
    destination stays empty.  A get that follows with a destination at least
    that long returns the same length. *)
Theorem xattr_size_query :
  forall (W : Type) (h : handler W) (w : W) (v : Volume) (f : Fd)
         (path attr : string) (value : list byte),
    getxattr_serves h v w path attr value ->
    fgetxattr_serves h f w attr value ->
    ((exists errno,
         run h (Getxattr v path attr []) w
         = (Done (len value, nil_error, []), w,
            [Ev (glfs_getxattr (fs v) path attr NULL 0) (len value, [], errno)])) /\
     (forall dest, len value <= len dest < 2 ^ 63 ->
        exists tr,
          run h (Getxattr v path attr dest) w
          = (Done (len value, nil_error, fill dest value), w, tr))) /\
    ((exists errno,
         run h (Fgetxattr f attr []) w
         = (Done (len value, nil_error, []), w,
            [Ev (glfs_fgetxattr (fd f) attr NULL 0) (len value, [], errno)])) /\
     (forall dest, len value <= len dest < 2 ^ 63 ->
        exists tr,
          run h (Fgetxattr f attr dest) w
          = (Done (len value, nil_error, fill dest value), w, tr))).
Proof.
  intros W h w v f path attr value [Hq Hg] [Hfq Hfg]. split.
  - apply (xattr_get_law h w (glfs_getxattr (fs v) path attr)
             (Getxattr v path attr) value); auto.
  - apply (xattr_get_law h w (glfs_fgetxattr (fd f) attr)
             (Fgetxattr f attr) value); auto.
Qed.

(** ** Enumerating a directory *)

Lemma int_succ (i n : Z) : 0 <= i < n -> n < 2 ^ 63 -> int (i + 1) = i + 1.
Proof.
  intros Hi Hn. unfold int, wrap_signed.
  change (2 ^ (64 - 1)) with 9223372036854775808 in *.
  change (2 ^ 63) with 9223372036854775808 in *.
  change (2 ^ 64) with 18446744073709551616.
  rewrite Z.mod_small by lia. lia.
Qed.

(** The loop of [Readdir], started at turn [i] with [files] gathered. *)
Lemma Readdir_loop_spec {ST : StatTranslator} {W : Type} (h : handler W) (f : Fd)
    (remaining : W -> option (list (Dirent * Stat_t))) (n : Z) :
  directory_stream h f remaining ->
  forall (es : list (Dirent * Stat_t)) (gas : nat) (w : W) (i : Z) (stat : Stat_t)
         (files : list FileInfo),
    remaining w = Some es ->
    (List.length es < gas)%nat ->
    n = 0 \/ (0 <= i <= n /\ n < 2 ^ 63) ->
    exists w' tr,
      run h (Readdir_loop gas f n i stat files) w
      = (Done (files ++ map (fun e => fileInfoFromStat (snd e) (direntName (fst e)))
                            (if n =? 0 then es else firstn (Z.to_nat (n - i)) es),
               nil_error), w', tr) /\
      remaining w' = Some (if n =? 0 then [] else skipn (Z.to_nat (n - i)) es).
Proof.
  intros Hstream es.
  induction es as [| [d st] rest IH]; intros gas w i stat files Hw Hgas Hn;
    (destruct gas as [| gas]; [cbn in Hgas; lia |]);
    cbn [Readdir_loop]; specialize (Hstream w _ Hw) as Hs;
    destruct Hs as [_ [w1 Hs]].
  - destruct Hs as [written [Hcall Hrest]].
    destruct ((n =? 0) || (i <? n)) eqn:Hcond.
    + rewrite run_bind, run_cgo, Hcall. cbn.
      exists w1. eexists. split; [| rewrite Hrest].
      * rewrite firstn_nil. destruct (n =? 0); cbn [map]; rewrite app_nil_r; reflexivity.
      * rewrite skipn_nil. destruct (n =? 0); reflexivity.
    + apply orb_false_iff in Hcond. destruct Hcond as [Hn0 Hin]. rewrite Hn0.
      exists w. eexists. cbn [run]. rewrite firstn_nil, skipn_nil.
      cbn [map]. rewrite app_nil_r. split; [reflexivity | exact Hw].
  - destruct Hs as [Hcall Hrest].
    destruct ((n =? 0) || (i <? n)) eqn:Hcond.
    + rewrite run_bind, run_cgo, Hcall. cbn [fst snd and_then stored cgo_err Z.eqb is_nil negb].
      assert (n = 0 \/ 0 <= int (i + 1) <= n /\ n < 2 ^ 63) as Hn'.
      { destruct (Z.eqb_spec n 0) as [Hn0 | Hne]; [now left | right].
        destruct Hn as [Hn | [Hi Hn]]; [contradiction |].
        cbn [orb] in Hcond. apply Z.ltb_lt in Hcond.
        rewrite (int_succ i n) by lia. lia. }
      destruct (IH gas w1 (int (i + 1)) st
                  (files ++ [fileInfoFromStat st (direntName d)]) Hrest
                  ltac:(cbn in Hgas; lia) Hn') as [w' [tr [Hrun Hafter]]].
      rewrite Hrun. cbn [app]. rewrite <- app_assoc. cbn [app].
      destruct (Z.eqb_spec n 0) as [Hn0 | Hne].
      * exists w'. eexists. split; [reflexivity | exact Hafter].
      * cbn [orb] in Hcond. apply Z.ltb_lt in Hcond.
        destruct Hn as [Hn | [Hi Hn]]; [contradiction |].
        rewrite (int_succ i n) in Hafter |- * by lia.
        replace (Z.to_nat (n - i)) with (S (Z.to_nat (n - (i + 1)))) by lia.
        exists w'. eexists. split; [reflexivity | exact Hafter].
    + apply orb_false_iff in Hcond. destruct Hcond as [Hn0 Hin]. rewrite Hn0.
      apply Z.eqb_neq in Hn0. apply Z.ltb_ge in Hin.
      destruct Hn as [Hn | [Hi Hn]]; [contradiction |].
      replace (n - i) with 0 by lia.
      exists w. eexists. cbn. rewrite app_nil_r. split; [reflexivity | exact Hw].
Qed.

(** The loop of [Readdirnames], started at turn [i] with [names] gathered. *)
Lemma Readdirnames_loop_spec {W : Type} (h : handler W) (f : Fd)
    (remaining : W -> option (list (Dirent * Stat_t))) (n : Z) :
  directory_stream h f remaining ->
  forall (es : list (Dirent * Stat_t)) (gas : nat) (w : W) (i : Z)
         (files : list string),
    remaining w = Some es ->
    (List.length es < gas)%nat ->
    n = 0 \/ (0 <= i <= n /\ n < 2 ^ 63) ->
    exists w' tr,
      run h (Readdirnames_loop gas f n i files) w
      = (Done (files ++ map (fun e => direntName (fst e))
                            (if n =? 0 then es else firstn (Z.to_nat (n - i)) es),
               nil_error), w', tr) /\
      remaining w' = Some (if n =? 0 then [] else skipn (Z.to_nat (n - i)) es).
Proof.
  intros Hstream es.
  induction es as [| [d st] rest IH]; intros gas w i files Hw Hgas Hn;
    (destruct gas as [| gas]; [cbn in Hgas; lia |]);
    cbn [Readdirnames_loop]; specialize (Hstream w _ Hw) as Hs;
    destruct Hs as [[w1 Hs] _].
  - destruct Hs as [Hcall Hrest].
    destruct ((n =? 0) || (i <? n)) eqn:Hcond.
    + rewrite run_bind, run_cgo, Hcall. cbn.
      exists w1. eexists. split; [| rewrite Hrest].
      * rewrite firstn_nil. destruct (n =? 0); cbn [map]; rewrite app_nil_r; reflexivity.
      * rewrite skipn_nil. destruct (n =? 0); reflexivity.
    + apply orb_false_iff in Hcond. destruct Hcond as [Hn0 Hin]. rewrite Hn0.
      exists w. eexists. cbn [run]. rewrite firstn_nil, skipn_nil.
      cbn [map]. rewrite app_nil_r. split; [reflexivity | exact Hw].
  - destruct Hs as [Hcall Hrest].
    destruct ((n =? 0) || (i <? n)) eqn:Hcond.
    + rewrite run_bind, run_cgo, Hcall. cbn [fst snd and_then stored cgo_err Z.eqb is_nil negb].
      assert (n = 0 \/ 0 <= int (i + 1) <= n /\ n < 2 ^ 63) as Hn'.
      { destruct (Z.eqb_spec n 0) as [Hn0 | Hne]; [now left | right].
        destruct Hn as [Hn | [Hi Hn]]; [contradiction |].
        cbn [orb] in Hcond. apply Z.ltb_lt in Hcond.
        rewrite (int_succ i n) by lia. lia. }
      destruct (IH gas w1 (int (i + 1))
                  (files ++ [direntName d]) Hrest
                  ltac:(cbn in Hgas; lia) Hn') as [w' [tr [Hrun Hafter]]].
      rewrite Hrun. cbn [app]. rewrite <- app_assoc. cbn [app].
      destruct (Z.eqb_spec n 0) as [Hn0 | Hne].
      * exists w'. eexists. split; [reflexivity | exact Hafter].
      * cbn [orb] in Hcond. apply Z.ltb_lt in Hcond.
        destruct Hn as [Hn | [Hi Hn]]; [contradiction |].
        rewrite (int_succ i n) in Hafter |- * by lia.
        replace (Z.to_nat (n - i)) with (S (Z.to_nat (n - (i + 1)))) by lia.
        exists w'. eexists. split; [reflexivity | exact Hafter].
    + apply orb_false_iff in Hcond. destruct Hcond as [Hn0 Hin]. rewrite Hn0.
      apply Z.eqb_neq in Hn0. apply Z.ltb_ge in Hin.
      destruct Hn as [Hn | [Hi Hn]]; [contradiction |].
      replace (n - i) with 0 by lia.
      exists w. eexists. cbn. rewrite app_nil_r. split; [reflexivity | exact Hw].
Qed.

(** C4.  Both enumerations page through the directory stream.  With maximum
    count zero one call returns every entry not read yet; with a positive
    count [n] it returns the next entries, at most [n] of them, and leaves
    the stream behind them, where the next call goes on; at the end of the
    stream the result is empty and the error nil.  Every call with a positive
    count is capped at that count: five entries read with count two come as
    two, two and one, then nothing. *)
Theorem Readdir_pages :
  forall {ST : StatTranslator} (W : Type) (h : handler W) (f : Fd)
         (remaining : W -> option (list (Dirent * Stat_t))),
    directory_stream h f remaining ->
    forall (w : W) (es : list (Dirent * Stat_t)) (n : Z) (gas : nat),
      remaining w = Some es ->
      0 <= n < 2 ^ 63 ->
      (List.length es < gas)%nat ->
      (exists w' tr,
          run h (Readdir gas f n) w
          = (Done (map (fun e => fileInfoFromStat (snd e) (direntName (fst e)))
                       (page n es), nil_error), w', tr) /\
          remaining w' = Some (after_page n es)) /\
      (exists w' tr,
          run h (Readdirnames gas f n) w
          = (Done (map (fun e => direntName (fst e)) (page n es), nil_error), w', tr) /\
          remaining w' = Some (after_page n es)) /\
      (0 < n -> Z.of_nat (List.length (page n es)) <= n) /\
      (es = [] -> page n es = []) /\
      es = page n es ++ after_page n es.
Proof.
  intros ST W h f remaining Hstream w es n gas Hw Hn Hgas.
  assert (n = 0 \/ 0 <= 0 <= n /\ n < 2 ^ 63) as Hinv.
  { destruct (Z.eq_dec n 0); [now left | right; lia]. }
  unfold page, after_page. repeat split.
  - destruct (Readdir_loop_spec h f remaining n Hstream es gas w 0
                zero_Stat_t [] Hw Hgas Hinv) as [w' [tr [Hrun Hafter]]].
    exists w', tr. rewrite Z.sub_0_r in *. split; [exact Hrun | exact Hafter].
  - destruct (Readdirnames_loop_spec h f remaining n Hstream es gas w 0
                [] Hw Hgas Hinv) as [w' [tr [Hrun Hafter]]].
    exists w', tr. rewrite Z.sub_0_r in *. split; [exact Hrun | exact Hafter].
  - intros Hpos. destruct (Z.eqb_spec n 0); [lia |].
    rewrite length_firstn. lia.
  - intros ->. destruct (n =? 0); [reflexivity | apply firstn_nil].
  - destruct (n =? 0).
    + now rewrite app_nil_r.
    + now rewrite firstn_skipn.
Qed.

(** ** Creating a directory and its parents *)

Section MkdirAllFacts.

Context {ST : StatTranslator} {W : Type} (h : handler W).

Lemma Stat_run (v : Volume) (path : string) (w w1 : W) (ret errno : Z)
    (written : option Stat_t) :
  h _ (glfs_stat (fs v) path) w = ((ret, written, errno), w1) ->
  run h (Stat v path) w
  = (Done (if ret <? 0 then (None, PathError "stat" path (cgo_err errno))
           else (Some (fileInfoFromStat (stored zero_Stat_t written) path), nil_error)),
     w1, [Ev (glfs_stat (fs v) path) (ret, written, errno)]).
Proof.
  intros Hstat. unfold Stat. rewrite run_bind, run_cgo, Hstat. cbn.
  destruct (ret <? 0); reflexivity.
Qed.

Lemma Lstat_run (v : Volume) (path : string) (w w1 : W) (ret errno : Z)
    (written : option Stat_t) :
  h _ (glfs_lstat (fs v) path) w = ((ret, written, errno), w1) ->
  run h (Lstat v path) w
  = (Done (if ret <? 0 then (None, cgo_err errno)
           else (Some (fileInfoFromStat (stored zero_Stat_t written) path), nil_error)),
     w1, [Ev (glfs_lstat (fs v) path) (ret, written, errno)]).
Proof.
  intros Hstat. unfold Lstat. rewrite run_bind, run_cgo, Hstat. cbn.
  destruct (ret <? 0); reflexivity.
Qed.

Lemma Mkdir_run (v : Volume) (path : string) (perm : FileMode) (w w1 : W)
    (ret errno : Z) :
  h _ (glfs_mkdir (fs v) path (C_mode_t (posixMode perm))) w = ((ret, errno), w1) ->
  run h (Mkdir v path perm) w
  = (Done (if ret =? 0 then nil_error else PathError "mkdir" path (cgo_err errno)),
     w1, [Ev (glfs_mkdir (fs v) path (C_mode_t (posixMode perm))) (ret, errno)]).
Proof.
  intros Hmk. unfold Mkdir. rewrite run_bind, run_cgo, Hmk. cbn.
  destruct (ret =? 0); reflexivity.
Qed.

(** The fast path: the target is there. *)
Lemma MkdirAll_at_found (depth : nat) (v : Volume) (path : string) (perm : FileMode)
    (w w1 : W) (ret errno : Z) (written : option Stat_t) :
  h _ (glfs_stat (fs v) path) w = ((ret, written, errno), w1) ->
  0 <= ret ->
  run h (MkdirAll_at depth v path perm) w
  = (Done (if IsDir (fileInfoFromStat (stored zero_Stat_t written) path)
           then nil_error else PathError "mkdir" path (Errno ENOTDIR)),
     w1, [Ev (glfs_stat (fs v) path) (ret, written, errno)]).
Proof.
  intros Hstat Hret.
  assert ((ret <? 0) = false) as Hneg by (apply Z.ltb_ge; lia).
  destruct depth; cbn [MkdirAll_at];
    rewrite run_bind, (Stat_run _ _ _ _ _ _ _ Hstat), Hneg; cbn;
    destruct (IsDir _); reflexivity.
Qed.

(** The slow path: the parent first, when there is one, then the target. *)
Lemma MkdirAll_at_missing (depth : nat) (v : Volume) (path : string) (perm : FileMode)
    (w w1 : W) (ret errno : Z) (written : option Stat_t) :
  h _ (glfs_stat (fs v) path) w = ((ret, written, errno), w1) ->
  ret < 0 ->
  run h (MkdirAll_at depth v path perm) w
  = let '(o, w2, tr) :=
      and_then
        (if (1 <? element_start path)%nat then
           match depth with
           | S depth' => run h (MkdirAll_at depth' v (parent_path path) perm) w1
           | O => (OutOfGas, w1, [])
           end
         else (Done nil_error, w1, []))
        (fun err w2 =>
           if negb (is_nil err) then (Done err, w2, [])
           else run h (create_target v path perm) w2) in
    (o, w2, Ev (glfs_stat (fs v) path) (ret, written, errno) :: tr).
Proof.
  intros Hstat Hret.
  assert ((ret <? 0) = true) as Hneg by (apply Z.ltb_lt; lia).
  unfold parent_path, create_target.
  destruct depth; cbn [MkdirAll_at];
    rewrite run_bind, (Stat_run _ _ _ _ _ _ _ Hstat), Hneg;
    cbn [and_then is_nil]; rewrite run_bind;
    destruct (1 <? element_start path)%nat; cbn [run and_then negb is_nil app];
    try reflexivity.
  destruct (run h (MkdirAll_at depth v (substring 0 (element_start path - 1) path) perm) w1)
    as [[[err | e |] w2] tr]; cbn [and_then]; try reflexivity.
  destruct (is_nil err); cbn [negb run]; reflexivity.
Qed.

Lemma create_target_created (v : Volume) (path : string) (perm : FileMode)
    (w w1 : W) (errno : Z) :
  h _ (glfs_mkdir (fs v) path (C_mode_t (posixMode perm))) w = ((0, errno), w1) ->
  run h (create_target v path perm) w
  = (Done nil_error, w1,
     [Ev (glfs_mkdir (fs v) path (C_mode_t (posixMode perm))) (0, errno)]).
Proof.
  intros Hmk. unfold create_target.
  rewrite run_bind, (Mkdir_run _ _ _ _ _ _ _ Hmk). reflexivity.
Qed.

Lemma create_target_failed (v : Volume) (path : string) (perm : FileMode)
    (w w1 w2 : W) (ret errno ret1 errno1 : Z) (written1 : option Stat_t) :
  h _ (glfs_mkdir (fs v) path (C_mode_t (posixMode perm))) w = ((ret, errno), w1) ->
  ret <> 0 ->
  h _ (glfs_lstat (fs v) path) w1 = ((ret1, written1, errno1), w2) ->
  run h (create_target v path perm) w
  = (if ret1 <? 0 then
       if errno1 =? 0 then Panicked nil_dereference
       else Done (PathError "mkdir" path (cgo_err errno))
     else if IsDir (fileInfoFromStat (stored zero_Stat_t written1) path)
          then Done nil_error
          else Done (PathError "mkdir" path (cgo_err errno)),
     w2,
     [Ev (glfs_mkdir (fs v) path (C_mode_t (posixMode perm))) (ret, errno);
      Ev (glfs_lstat (fs v) path) (ret1, written1, errno1)]).
Proof.
  intros Hmk Hret Hls. unfold create_target.
  rewrite run_bind, (Mkdir_run _ _ _ _ _ _ _ Hmk).
  apply Z.eqb_neq in Hret. rewrite Hret. cbn [and_then is_nil negb].
  rewrite run_bind, (Lstat_run _ _ _ _ _ _ _ Hls).
  destruct (ret1 <? 0); cbn [and_then].
  - unfold cgo_err at 1. destruct (errno1 =? 0); reflexivity.
  - cbn. destruct (IsDir _); reflexivity.
Qed.

(** *** Where the last element of a path starts *)

Lemma skip_trailing_separators_le (path : string) (i : nat) :
  (skip_trailing_separators path i <= i)%nat.
Proof.
  induction i as [| i IH]; cbn; [lia |].
  destruct (IsPathSeparator (byte_at path i)); lia.
Qed.

Lemma scan_back_over_element_le (path : string) (j : nat) :
  (scan_back_over_element path j <= j)%nat.
Proof.
  induction j as [| j IH]; cbn; [lia |].
  destruct (IsPathSeparator (byte_at path j)); cbn; lia.
Qed.

Lemma element_start_le (path : string) :
  (element_start path <= String.length path)%nat.
Proof.
  unfold element_start.
  pose proof (skip_trailing_separators_le path (String.length path)).
  pose proof (scan_back_over_element_le path
                (skip_trailing_separators path (String.length path))).
  lia.
Qed.

Lemma substring_prefix_length (s : string) :
  forall n : nat, (String.length (substring 0 n s) <= n)%nat.
Proof.
  induction s as [| c s IH]; intros [| n]; cbn; try lia.
  specialize (IH n). lia.
Qed.

Lemma parent_path_shorter (path : string) :
  (1 < element_start path)%nat ->
  (String.length (parent_path path) < String.length path)%nat.
Proof.
  intros Hj. unfold parent_path.
  pose proof (element_start_le path).
  pose proof (substring_prefix_length path (element_start path - 1)). lia.
Qed.

(** *** The depth bound is never reached *)

Lemma MkdirAll_at_depth (v : Volume) (perm : FileMode) (d1 : nat) :
  forall (d2 : nat) (path : string) (w : W),
    (String.length path <= d1)%nat ->
    (String.length path <= d2)%nat ->
    run h (MkdirAll_at d1 v path perm) w = run h (MkdirAll_at d2 v path perm) w.
Proof.
  induction d1 as [| d1 IH]; intros d2 path w H1 H2;
    destruct (h _ (glfs_stat (fs v) path) w) as [[[ret written] errno] w1] eqn:Hstat;
    destruct (Z.lt_ge_cases ret 0) as [Hret | Hret];
    try (rewrite !(MkdirAll_at_found _ _ _ _ _ _ _ _ _ Hstat Hret); reflexivity);
    rewrite !(MkdirAll_at_missing _ _ _ _ _ _ _ _ _ Hstat Hret);
    destruct (1 <? element_start path)%nat eqn:Hj; try reflexivity;
    apply Nat.ltb_lt in Hj; pose proof (parent_path_shorter path Hj) as Hlen.
  - lia.
  - destruct d2 as [| d2]; [lia |].
    rewrite (IH d2 (parent_path path) w1) by lia. reflexivity.
Qed.

(** [MkdirAll] unfolds as the source reads: its parent is ensured by
    [MkdirAll] itself. *)
Lemma MkdirAll_missing (v : Volume) (path : string) (perm : FileMode)
    (w w1 : W) (ret errno : Z) (written : option Stat_t) :
  h _ (glfs_stat (fs v) path) w = ((ret, written, errno), w1) ->
  ret < 0 ->
  run h (MkdirAll v path perm) w
  = let '(o, w2, tr) :=
      and_then
        (if (1 <? element_start path)%nat
         then run h (MkdirAll v (parent_path path) perm) w1
         else (Done nil_error, w1, []))
        (fun err w2 =>
           if negb (is_nil err) then (Done err, w2, [])
           else run h (create_target v path perm) w2) in
    (o, w2, Ev (glfs_stat (fs v) path) (ret, written, errno) :: tr).
Proof.
  intros Hstat Hret. unfold MkdirAll.
  rewrite (MkdirAll_at_missing _ _ _ _ _ _ _ _ _ Hstat Hret).
  destruct (1 <? element_start path)%nat eqn:Hj; [| reflexivity].
  apply Nat.ltb_lt in Hj. pose proof (parent_path_shorter path Hj) as Hlen.
  destruct (String.length path) as [| d] eqn:Hd; [lia |].
  rewrite (MkdirAll_at_depth v perm d (String.length (parent_path path))) by lia.
  reflexivity.
Qed.

Lemma MkdirAll_found (v : Volume) (path : string) (perm : FileMode)
    (w w1 : W) (ret errno : Z) (written : option Stat_t) :
  h _ (glfs_stat (fs v) path) w = ((ret, written, errno), w1) ->
  0 <= ret ->
  run h (MkdirAll v path perm) w
  = (Done (if IsDir (fileInfoFromStat (stored zero_Stat_t written) path)
           then nil_error else PathError "mkdir" path (Errno ENOTDIR)),
     w1, [Ev (glfs_stat (fs v) path) (ret, written, errno)]).
Proof.
  intros Hstat Hret. apply (MkdirAll_at_found _ _ _ _ _ _ _ _ _ Hstat Hret).
Qed.

(** [MkdirAll] always comes back: the depth it starts with is enough. *)
Lemma create_target_returns (v : Volume) (path : string) (perm : FileMode) (w : W) :
  fst (fst (run h (create_target v path perm) w)) <> OutOfGas.
Proof.
  destruct (h _ (glfs_mkdir (fs v) path (C_mode_t (posixMode perm))) w)
    as [[ret errno] w1] eqn:Hmk.
  destruct (Z.eq_dec ret 0) as [-> | Hret].
  - rewrite (create_target_created _ _ _ _ _ _ Hmk). discriminate.
  - destruct (h _ (glfs_lstat (fs v) path) w1) as [[[ret1 written1] errno1] w2] eqn:Hls.
    rewrite (create_target_failed _ _ _ _ _ _ _ _ _ _ _ Hmk Hret Hls). cbn [fst].
    destruct (ret1 <? 0); [destruct (errno1 =? 0) | destruct (IsDir _)]; discriminate.
Qed.

Lemma MkdirAll_at_returns (v : Volume) (perm : FileMode) (depth : nat) :
  forall (path : string) (w : W),
    (String.length path <= depth)%nat ->
    fst (fst (run h (MkdirAll_at depth v path perm) w)) <> OutOfGas.
Proof.
  induction depth as [| depth IH]; intros path w Hlen;
    destruct (h _ (glfs_stat (fs v) path) w) as [[[ret written] errno] w1] eqn:Hstat;
    destruct (Z.lt_ge_cases ret 0) as [Hret | Hret];
    try (rewrite (MkdirAll_at_found _ _ _ _ _ _ _ _ _ Hstat Hret); discriminate);
    rewrite (MkdirAll_at_missing _ _ _ _ _ _ _ _ _ Hstat Hret);
    destruct (1 <? element_start path)%nat eqn:Hj.
  - apply Nat.ltb_lt in Hj. pose proof (element_start_le path). lia.
  - cbn [and_then is_nil negb].
    pose proof (create_target_returns v path perm w1) as Hct.
    destruct (run h (create_target v path perm) w1) as [[o w2] tr]. exact Hct.
  - apply Nat.ltb_lt in Hj. pose proof (parent_path_shorter path Hj) as Hshort.
    specialize (IH (parent_path path) w1 ltac:(lia)).
    destruct (run h (MkdirAll_at depth v (parent_path path) perm) w1)
      as [[[err | e |] wp] trp]; cbn [and_then fst] in IH |- *;
      [| discriminate | contradiction].
    destruct (negb (is_nil err)); [discriminate |].
    pose proof (create_target_returns v path perm wp) as Hct.
    destruct (run h (create_target v path perm) wp) as [[o w2] tr]. exact Hct.
  - cbn [and_then is_nil negb].
    pose proof (create_target_returns v path perm w1) as Hct.
    destruct (run h (create_target v path perm) w1) as [[o w2] tr]. exact Hct.
Qed.

Lemma MkdirAll_returns (v : Volume) (path : string) (perm : FileMode) (w : W) :
  fst (fst (run h (MkdirAll v path perm) w)) <> OutOfGas.
Proof.
  apply MkdirAll_at_returns. lia.
Qed.

(** *** The calls [MkdirAll] makes *)

Lemma create_target_calls (v : Volume) (path : string) (perm : FileMode)
    (w w' : W) (o : outcome Error) (tr : list event) :
  run h (create_target v path perm) w = (o, w', tr) ->
  Forall (fun e => path_of_call e = Some path) tr.
Proof.
  intros Hrun.
  destruct (h _ (glfs_mkdir (fs v) path (C_mode_t (posixMode perm))) w)
    as [[ret errno] w1] eqn:Hmk.
  destruct (Z.eq_dec ret 0) as [-> | Hret].
  - rewrite (create_target_created _ _ _ _ _ _ Hmk) in Hrun.
    inversion Hrun; subst. repeat constructor.
  - destruct (h _ (glfs_lstat (fs v) path) w1) as [[[ret1 written1] errno1] w2] eqn:Hls.
    rewrite (create_target_failed _ _ _ _ _ _ _ _ _ _ _ Hmk Hret Hls) in Hrun.
    inversion Hrun; subst. repeat constructor.
Qed.

(** The calls of the slow path, given those of the parent step. *)
Lemma slow_path_calls (v : Volume) (path : string) (perm : FileMode)
    (answer : Z * option Stat_t * Z) (parent : outcome Error * W * list event)
    (w' : W) (o : outcome Error) (tr : list event) :
  (let '(o, w2, tr) :=
     and_then parent
       (fun err w2 =>
          if negb (is_nil err) then (Done err, w2, [])
          else run h (create_target v path perm) w2) in
   (o, w2, Ev (glfs_stat (fs v) path) answer :: tr)) = (o, w', tr) ->
  exists tail,
    tr = Ev (glfs_stat (fs v) path) answer :: snd parent ++ tail /\
    Forall (fun e => path_of_call e = Some path) tail.
Proof.
  destruct parent as [[[err | e |] wp] trp]; cbn [and_then snd]; intros Hrun.
  - destruct (negb (is_nil err)).
    + inversion Hrun; subst. exists []. split; [reflexivity | constructor].
    + destruct (run h (create_target v path perm) wp) as [[o2 w2] tr2] eqn:Hct.
      inversion Hrun; subst. exists tr2. split; [reflexivity |].
      apply (create_target_calls _ _ _ _ _ _ _ Hct).
  - inversion Hrun; subst. exists []. rewrite app_nil_r. split; [reflexivity | constructor].
  - inversion Hrun; subst. exists []. rewrite app_nil_r. split; [reflexivity | constructor].
Qed.

(** Every call is about a path no longer than the one [MkdirAll] was given. *)
Lemma MkdirAll_at_calls (v : Volume) (perm : FileMode) (depth : nat) :
  forall (path : string) (w w' : W) (o : outcome Error) (tr : list event),
    run h (MkdirAll_at depth v path perm) w = (o, w', tr) ->
    Forall (fun e => exists p, path_of_call e = Some p /\
                               (String.length p <= String.length path)%nat) tr.
Proof.
  induction depth as [| depth IH]; intros path w w' o tr Hrun;
    destruct (h _ (glfs_stat (fs v) path) w) as [[[ret written] errno] w1] eqn:Hstat;
    destruct (Z.lt_ge_cases ret 0) as [Hret | Hret];
    try (rewrite (MkdirAll_at_found _ _ _ _ _ _ _ _ _ Hstat Hret) in Hrun;
         inversion Hrun; subst; repeat constructor; exists path; split;
         [reflexivity | lia]);
    rewrite (MkdirAll_at_missing _ _ _ _ _ _ _ _ _ Hstat Hret) in Hrun;
    apply slow_path_calls in Hrun; destruct Hrun as [tail [-> Htail]];
    (constructor; [exists path; split; [reflexivity | lia] |]);
    (apply Forall_app; split;
     [| eapply Forall_impl; [| exact Htail];
        intros e He; exists path; split; [exact He | lia]]).
  - destruct (1 <? element_start path)%nat; constructor.
  - destruct (1 <? element_start path)%nat eqn:Hj; [| constructor].
    apply Nat.ltb_lt in Hj. pose proof (parent_path_shorter path Hj) as Hlen.
    destruct (run h (MkdirAll_at depth v (parent_path path) perm) w1)
      as [[op wp] trp] eqn:HP.
    apply IH in HP. eapply Forall_impl; [| exact HP].
    intros e [p [Hp Hle]]. exists p. split; [exact Hp | lia].
Qed.

Lemma is_failed_mkdir_path (path : string) (e : event) :
  is_failed_mkdir path e -> path_of_call e = Some path.
Proof.
  destruct e as [X c x]. destruct c; cbn; try contradiction.
  intros [-> _]. reflexivity.
Qed.

End MkdirAllFacts.

(** C2.  When nobody else changes the volume, [MkdirAll] is idempotent: after
    a call that succeeded, a second call on the same path makes one stat
    call, is told that the path is a directory, and returns nil; it makes no
    create call and leaves the volume as it is. *)
Theorem MkdirAll_idempotent :
  forall {ST : StatTranslator} (W : Type) (h : handler W) (v : Volume),
    namespace_contract h v ->
    forall (path : string) (perm : FileMode) (w w1 : W) (tr1 : list event),
      run h (MkdirAll v path perm) w = (Done nil_error, w1, tr1) ->
      exists answer,
        reports_directory path answer /\
        run h (MkdirAll v path perm) w1
        = (Done nil_error, w1, [Ev (glfs_stat (fs v) path) answer]).
Proof.
  intros ST W h v [Hstat_ro Hlstat_ro Hmkdir Hlstat_stat] path perm w w1 tr1 Hfirst.
  assert (reports_directory path (fst (h _ (glfs_stat (fs v) path) w1))) as Hdir.
  { destruct (h _ (glfs_stat (fs v) path) w) as [[[ret written] errno] w0] eqn:Hstat.
    pose proof (Hstat_ro path w) as Hw0. rewrite Hstat in Hw0. cbn in Hw0. subst w0.
    destruct (Z.lt_ge_cases ret 0) as [Hret | Hret].
    - rewrite (MkdirAll_missing h _ _ _ _ _ _ _ _ Hstat Hret) in Hfirst.
      destruct (if (1 <? element_start path)%nat
                then run h (MkdirAll v (parent_path path) perm) w
                else (Done nil_error, w, [])) as [[[err | e |] wp] trp];
        cbn [and_then] in Hfirst; try discriminate.
      destruct err as [| e | op p e]; cbn [is_nil negb] in Hfirst; try discriminate.
      destruct (h _ (glfs_mkdir (fs v) path (C_mode_t (posixMode perm))) wp)
        as [[retm errnom] w3] eqn:Hmk.
      destruct (Z.eq_dec retm 0) as [-> | Hretm].
      + rewrite (create_target_created h _ _ _ _ _ _ Hmk) in Hfirst.
        inversion Hfirst; subst. apply (Hmkdir _ _ _ _ _ Hmk).
      + destruct (h _ (glfs_lstat (fs v) path) w3) as [[[ret1 written1] errno1] w4] eqn:Hls.
        pose proof (Hlstat_ro path w3) as Hw4. rewrite Hls in Hw4. cbn in Hw4. subst w4.
        rewrite (create_target_failed h _ _ _ _ _ _ _ _ _ _ _ Hmk Hretm Hls) in Hfirst.
        destruct (ret1 <? 0) eqn:Hret1.
        * destruct (errno1 =? 0); inversion Hfirst.
        * apply Z.ltb_ge in Hret1.
          destruct (IsDir (fileInfoFromStat (stored zero_Stat_t written1) path)) eqn:Hd;
            inversion Hfirst; subst.
          apply Hlstat_stat. rewrite Hls. cbn. split; [lia | exact Hd].
    - rewrite (MkdirAll_found h _ _ _ _ _ _ _ _ Hstat Hret) in Hfirst.
      destruct (IsDir (fileInfoFromStat (stored zero_Stat_t written) path)) eqn:Hd;
        inversion Hfirst; subst.
      rewrite Hstat. cbn. split; [lia | exact Hd]. }
  destruct (h _ (glfs_stat (fs v) path) w1) as [[[ret written] errno] w2] eqn:Hstat.
  pose proof (Hstat_ro path w1) as Hw2. rewrite Hstat in Hw2. cbn in Hw2. subst w2.
  cbn in Hdir. destruct Hdir as [Hret Hd].
  exists (ret, written, errno). split; [split; assumption |].
  rewrite (MkdirAll_found h _ _ _ _ _ _ _ _ Hstat Hret), Hd. reflexivity.
Qed.

(** C3, as the code has it.  When the descent of [MkdirAll] from the path
    reaches a target (the path itself or one of the parents it ensures) that
    stat reports as existing and not a directory, [MkdirAll] fails with the
    path error [mkdir target: ENOTDIR]; it has made stat calls only, so
    nothing was created and the volume is as before. *)
Theorem MkdirAll_stops_at_non_directory :
  forall {ST : StatTranslator} (W : Type) (h : handler W) (v : Volume) (w : W)
         (path target : string) (perm : FileMode) (answer : Z * option Stat_t * Z),
    descends_to h v w path target ->
    h _ (glfs_stat (fs v) target) w = (answer, w) ->
    reports_non_directory target answer ->
    exists tr,
      run h (MkdirAll v path perm) w
      = (Done (PathError "mkdir" target (Errno ENOTDIR)), w, tr) /\
      Forall is_stat_call tr.
Proof.
  intros ST W h v w path target perm [[ret written] errno] Hdescent Hstat [Hret Hnondir].
  induction Hdescent as [path | path target ret' errno' written' Hfail Hneg Hj _ IH].
  - rewrite (MkdirAll_found h _ _ _ _ _ _ _ _ Hstat Hret), Hnondir.
    eexists. split; [reflexivity |]. repeat constructor.
  - destruct (IH Hstat Hnondir) as [tr [Hrun Hcalls]].
    rewrite (MkdirAll_missing h _ _ _ _ _ _ _ _ Hfail Hneg).
    apply Nat.ltb_lt in Hj. rewrite Hj, Hrun. cbn.
    eexists. split; [reflexivity |].
    rewrite app_nil_r. constructor; [exact I | exact Hcalls].
Qed.

(** C1.  Whenever a run of [MkdirAll] includes a failed create call on the
    target itself, that call is followed by a non-following stat of the
    target and nothing else.  [MkdirAll] returns nil exactly when this
    re-check reports an existing directory; otherwise (the re-check, when it
    fails, reporting a cause) it returns the error of the create call, not
    that of the re-check. *)
Theorem MkdirAll_rechecks_after_failed_create :
  forall {ST : StatTranslator} (W : Type) (h : handler W) (v : Volume)
         (path : string) (perm : FileMode) (w w' : W) (out : outcome Error)
         (tr : list event),
    run h (MkdirAll v path perm) w = (out, w', tr) ->
    Exists (is_failed_mkdir path) tr ->
    exists tr0 ret errno ret1 written1 errno1,
      tr = tr0 ++ [Ev (glfs_mkdir (fs v) path (C_mode_t (posixMode perm))) (ret, errno);
                   Ev (glfs_lstat (fs v) path) (ret1, written1, errno1)] /\
      ret <> 0 /\
      (out = Done nil_error <-> reports_directory path (ret1, written1, errno1)) /\
      (~ reports_directory path (ret1, written1, errno1) ->
       (ret1 < 0 -> errno1 <> 0) ->
       out = Done (PathError "mkdir" path (cgo_err errno))).
Proof.
  intros ST W h v path perm w w' out tr Hrun Hfailed.
  destruct (h _ (glfs_stat (fs v) path) w) as [[[ret0 written0] errno0] w1] eqn:Hstat.
  destruct (Z.lt_ge_cases ret0 0) as [Hret0 | Hret0].
  2: { rewrite (MkdirAll_found h _ _ _ _ _ _ _ _ Hstat Hret0) in Hrun.
       inversion Hrun; subst.
       inversion Hfailed as [e l He | e l He]; subst; [contradiction | inversion He]. }
  rewrite (MkdirAll_missing h _ _ _ _ _ _ _ _ Hstat Hret0) in Hrun.
  remember (if (1 <? element_start path)%nat
            then run h (MkdirAll v (parent_path path) perm) w1
            else (Done nil_error, w1, [])) as parent eqn:Hparent.
  assert (Forall (fun e => ~ is_failed_mkdir path e) (snd parent)) as Hshort.
  { subst parent. destruct (1 <? element_start path)%nat eqn:Hj; [| constructor].
    apply Nat.ltb_lt in Hj. pose proof (parent_path_shorter path Hj) as Hlen.
    destruct (run h (MkdirAll v (parent_path path) perm) w1) as [[op wp] trp] eqn:HP.
    apply MkdirAll_at_calls in HP. cbn [snd].
    eapply Forall_impl; [| exact HP].
    intros e [p [Hp Hle]] He. apply is_failed_mkdir_path in He.
    rewrite Hp in He. inversion He; subst. lia. }
  clear Hparent. destruct parent as [[op wp] trp]. cbn [snd] in Hshort.
  assert (forall tail, ~ Exists (is_failed_mkdir path) tail ->
            ~ Exists (is_failed_mkdir path)
                (Ev (glfs_stat (fs v) path) (ret0, written0, errno0) :: trp ++ tail))
    as Hnone.
  { intros tail Htail Hex. inversion Hex as [e l He | e l He]; subst; [contradiction |].
    apply Exists_app in He. destruct He as [He | He]; [| contradiction].
    apply Forall_Exists_neg in Hshort. contradiction. }
  destruct op as [err | e |]; cbn [and_then] in Hrun.
  2, 3: inversion Hrun; subst; exfalso;
        apply (Hnone []); [intros Hex; inversion Hex | now rewrite app_nil_r].
  destruct (negb (is_nil err)).
  { inversion Hrun; subst. exfalso.
    apply (Hnone []); [intros Hex; inversion Hex | exact Hfailed]. }
  destruct (h _ (glfs_mkdir (fs v) path (C_mode_t (posixMode perm))) wp)
    as [[ret errno] w3] eqn:Hmk.
  destruct (Z.eq_dec ret 0) as [-> | Hret].
  { rewrite (create_target_created h _ _ _ _ _ _ Hmk) in Hrun.
    inversion Hrun; subst. exfalso.
    apply (Hnone [Ev (glfs_mkdir (fs v) path (C_mode_t (posixMode perm))) (0, errno)]);
      [| exact Hfailed].
    intros Hex. inversion Hex as [e l He | e l He]; subst.
    - cbn in He. destruct He as [_ He]. contradiction.
    - inversion He. }
  destruct (h _ (glfs_lstat (fs v) path) w3) as [[[ret1 written1] errno1] w4] eqn:Hls.
  rewrite (create_target_failed h _ _ _ _ _ _ _ _ _ _ _ Hmk Hret Hls) in Hrun.
  inversion Hrun; subst. clear Hrun.
  exists (Ev (glfs_stat (fs v) path) (ret0, written0, errno0) :: trp),
    ret, errno, ret1, written1, errno1.
  split; [reflexivity |]. split; [exact Hret |]. cbn [reports_directory].
  destruct (ret1 <? 0) eqn:Hret1.
  - apply Z.ltb_lt in Hret1. split.
    + split.
      * destruct (errno1 =? 0); discriminate.
      * intros [Hge _]. lia.
    + intros _ Herrno. specialize (Herrno Hret1).
      apply Z.eqb_neq in Herrno. rewrite Herrno. reflexivity.
  - apply Z.ltb_ge in Hret1.
    destruct (IsDir (fileInfoFromStat (stored zero_Stat_t written1) path)) eqn:Hd.
    + split.
      * split; [intros _; split; [exact Hret1 | reflexivity] | reflexivity].
      * intros Hnot. exfalso. apply Hnot. split; [exact Hret1 | reflexivity].
    + split.
      * split; [discriminate | intros [_ Hcontra]; discriminate].
      * reflexivity.
Qed.

(** ** The reference library keeps the contracts *)

Lemma components_eqb_refl (k : MemFs.components) : MemFs.components_eqb k k = true.
Proof.
  induction k as [| c k IH]; cbn; [reflexivity |].
  now rewrite String.eqb_refl, IH.
Qed.

Lemma MemFs_stat_directory (w : MemFs.world) (path : string) (n : MemFs.node) :
  path <> "" ->
  MemFs.find w (MemFs.normalise path) = Some n ->
  @reports_directory MemFs.translator path (0, Some (MemFs.stat_of n), 0) ->
  MemFs.stat_answer w path = (0, Some (MemFs.stat_of MemFs.Dir), 0).
Proof.
  intros Hpath Hfind [_ Hdir]. unfold MemFs.stat_answer.
  apply String.eqb_neq in Hpath. rewrite Hpath.
  destruct n as [| | target]; [| discriminate Hdir | discriminate Hdir].
  cbn [MemFs.resolve]. rewrite Hfind. reflexivity.
Qed.

Lemma MemFs_namespace_contract :
  @namespace_contract MemFs.translator MemFs.world MemFs.answer MemFs.volume.
Proof.
  split.
  - intros path w. reflexivity.
  - intros path w. reflexivity.
  - intros path mode w errno w' Hmk. cbn in Hmk |- *.
    unfold MemFs.mkdir_answer, MemFs.create in Hmk.
    destruct (path =? "")%string eqn:Hpath; [discriminate Hmk |].
    destruct (MemFs.find w (MemFs.normalise path)) eqn:Hfind; [discriminate Hmk |].
    destruct (MemFs.find w (removelast (MemFs.normalise path))) as [[| |] |];
      [| discriminate Hmk | discriminate Hmk
       | unfold MemFs.errno_missing in Hmk;
         destruct (MemFs.blocked w [] (MemFs.normalise path)); discriminate Hmk].
    cbn in Hmk. inversion Hmk; subst. clear Hmk.
    apply String.eqb_neq in Hpath.
    rewrite (MemFs_stat_directory _ path MemFs.Dir Hpath).
    + split; [lia | reflexivity].
    + unfold MemFs.find in *. cbn [MemFs.nodes MemFs.add_node MemFs.lookup].
      destruct (MemFs.normalise path); [discriminate Hfind |].
      now rewrite components_eqb_refl.
    + split; [lia | reflexivity].
  - intros path w. cbn. unfold MemFs.lstat_answer.
    destruct (path =? "")%string eqn:Hpath; [intros [Hcontra _]; lia |].
    destruct (MemFs.find w (MemFs.normalise path)) as [n |] eqn:Hfind;
      [| intros [Hcontra _]; lia].
    intros Hdir. apply String.eqb_neq in Hpath.
    rewrite (MemFs_stat_directory _ path n Hpath Hfind Hdir).
    split; [lia | reflexivity].
Qed.

Lemma MemFs_directory_stream (f : Fd) :
  directory_stream MemFs.answer f (MemFs.remaining (fd f)).
Proof.
  intros w es Hw. destruct f as [[d |]]; cbn in Hw; [| discriminate Hw].
  cbn [fd MemFs.answer]. unfold MemFs.readdir_answer. rewrite Hw.
  destruct es as [| [e st] rest].
  - split; [exists w | exists w, None]; split; try reflexivity; exact Hw.
  - split; exists (MemFs.set_stream w d rest); split; try reflexivity;
      cbn; now rewrite Nat.eqb_refl.
Qed.

Lemma MemFs_getxattr_serves :
  getxattr_serves MemFs.answer MemFs.volume MemFs.with_file "/a/f" "user.tag"
    (list_ascii_of_string "blue").
Proof.
  split; [exists 0; reflexivity |].
  intros b size Hsize. exists 0. cbn in Hsize |- *.
  destruct (Z.eqb_spec size 0); [lia |].
  destruct (Z.ltb_spec size 4); [lia | reflexivity].
Qed.

Lemma MemFs_fgetxattr_serves :
  fgetxattr_serves MemFs.answer MemFs.descriptor MemFs.with_file "user.tag"
    (list_ascii_of_string "blue").
Proof.
  split; [exists 0; reflexivity |].
  intros b size Hsize. exists 0. cbn in Hsize |- *.
  destruct (Z.eqb_spec size 0); [lia |].
  destruct (Z.ltb_spec size 4); [lia | reflexivity].
Qed.

(** ** The theorems at work on the reference library *)

#[local] Existing Instance MemFs.translator.

(** On a volume where [/link] is a dangling symbolic link, the create call on
    [/link] fails; the re-check sees no directory and the error of the create
    call comes back. *)
Lemma MkdirAll_rechecks_witness :
  let r := run MemFs.answer (MkdirAll MemFs.volume "/link" 493) MemFs.with_dangling_link in
  exists tr0 ret errno ret1 written1 errno1,
    snd r = tr0 ++ [Ev (glfs_mkdir (fs MemFs.volume) "/link" (C_mode_t (posixMode 493)))
                       (ret, errno);
                    Ev (glfs_lstat (fs MemFs.volume) "/link") (ret1, written1, errno1)] /\
    ret <> 0 /\
    (fst (fst r) = Done nil_error <-> reports_directory "/link" (ret1, written1, errno1)) /\
    (~ reports_directory "/link" (ret1, written1, errno1) ->
     (ret1 < 0 -> errno1 <> 0) ->
     fst (fst r) = Done (PathError "mkdir" "/link" (cgo_err errno))).
Proof.
  intros r.
  apply (MkdirAll_rechecks_after_failed_create MemFs.world MemFs.answer MemFs.volume
           "/link" 493 MemFs.with_dangling_link (snd (fst r))).
  - vm_compute. reflexivity.
  - right. left. split; [reflexivity | discriminate].
Defined.

(** After [MkdirAll] has created [/a/b/c] on the empty volume, a second call
    only stats the path. *)
Lemma MkdirAll_idempotent_witness :
  let w1 := snd (fst (run MemFs.answer (MkdirAll MemFs.volume "/a/b/c" 493) MemFs.empty)) in
  exists answer,
    reports_directory "/a/b/c" answer /\
    run MemFs.answer (MkdirAll MemFs.volume "/a/b/c" 493) w1
    = (Done nil_error, w1, [Ev (glfs_stat (fs MemFs.volume) "/a/b/c") answer]).
Proof.
  intros w1.
  apply (MkdirAll_idempotent MemFs.world MemFs.answer MemFs.volume
           MemFs_namespace_contract "/a/b/c" 493 MemFs.empty w1
           (snd (run MemFs.answer (MkdirAll MemFs.volume "/a/b/c" 493) MemFs.empty))).
  vm_compute. reflexivity.
Defined.

(** With the regular file [/a/f] in the way, [MkdirAll] on [/a/f/b/c] stops
    at [/a/f]. *)
Lemma MkdirAll_stops_witness :
  exists tr,
    run MemFs.answer (MkdirAll MemFs.volume "/a/f/b/c" 493) MemFs.with_file
    = (Done (PathError "mkdir" "/a/f" (Errno ENOTDIR)), MemFs.with_file, tr) /\
    Forall is_stat_call tr.
Proof.
  apply (MkdirAll_stops_at_non_directory MemFs.world MemFs.answer MemFs.volume
           MemFs.with_file "/a/f/b/c" "/a/f" 493
           (0, Some (MemFs.stat_of MemFs.Reg), 0)).
  - apply (descends_up MemFs.answer MemFs.volume MemFs.with_file
             "/a/f/b/c" "/a/f" (-1) ENOTDIR None);
      [reflexivity | lia | vm_compute; lia |].
    apply (descends_up MemFs.answer MemFs.volume MemFs.with_file
             "/a/f/b" "/a/f" (-1) ENOTDIR None);
      [reflexivity | lia | vm_compute; lia |].
    apply descends_here.
  - reflexivity.
  - split; [lia | reflexivity].
Defined.

(** A non-directory that stat does not see.  [/link] is taken by an entry
    that is no directory, a symbolic link to nothing: stat, which follows the
    link, does not find it, the create call is made and fails with [EEXIST],
    and that error comes back, not [ENOTDIR]. *)
Lemma MkdirAll_on_dangling_link :
  let r := run MemFs.answer (MkdirAll MemFs.volume "/link" 493) MemFs.with_dangling_link in
  reports_non_directory "/link"
    (fst (MemFs.answer _ (glfs_lstat (fs MemFs.volume) "/link") MemFs.with_dangling_link)) /\
  fst (fst r) = Done (PathError "mkdir" "/link" (Errno EEXIST)) /\
  (forall p, fst (fst r) <> Done (PathError "mkdir" p (Errno ENOTDIR))) /\
  Exists (fun e => match e with Ev (glfs_mkdir _ _ _) _ => True | _ => False end) (snd r).
Proof.
  intros r. split; [split; [vm_compute; discriminate | reflexivity] |].
  split; [reflexivity |]. split.
  - intros p Heq. vm_compute in Heq. discriminate Heq.
  - right. left. exact I.
Qed.

(** Five entries.  Read with maximum count two they come as two, two and
    one, and a fourth call finds nothing left; read with maximum count zero
    they come in one call. *)
Lemma Readdir_pages_witness :
  (exists w1 w2 w3 w4 t1 t2 t3 t4,
      run MemFs.answer (Readdirnames 8 MemFs.descriptor 2) MemFs.with_listing
      = (Done (["one"; "two"], nil_error), w1, t1) /\
      run MemFs.answer (Readdirnames 8 MemFs.descriptor 2) w1
      = (Done (["three"; "four"], nil_error), w2, t2) /\
      run MemFs.answer (Readdirnames 8 MemFs.descriptor 2) w2
      = (Done (["five"], nil_error), w3, t3) /\
      run MemFs.answer (Readdirnames 8 MemFs.descriptor 2) w3
      = (Done ([], nil_error), w4, t4)) /\
  (exists w1 w2 t1 t2,
      run MemFs.answer (Readdirnames 8 MemFs.descriptor 0) MemFs.with_listing
      = (Done (["one"; "two"; "three"; "four"; "five"], nil_error), w1, t1) /\
      run MemFs.answer (Readdirnames 8 MemFs.descriptor 0) w1
      = (Done ([], nil_error), w2, t2)).
Proof.
  pose proof (Readdir_pages MemFs.world MemFs.answer MemFs.descriptor
                (MemFs.remaining (fd MemFs.descriptor))
                (MemFs_directory_stream MemFs.descriptor)) as Hpages.
  split.
  - destruct (Hpages MemFs.with_listing MemFs.five_entries 2 8%nat eq_refl
                ltac:(split; [lia | reflexivity]) ltac:(vm_compute; lia))
      as [_ [[w1 [t1 [H1 R1]]] _]].
    destruct (Hpages w1 _ 2 8%nat R1 ltac:(split; [lia | reflexivity])
                ltac:(vm_compute; lia)) as [_ [[w2 [t2 [H2 R2]]] _]].
    destruct (Hpages w2 _ 2 8%nat R2 ltac:(split; [lia | reflexivity])
                ltac:(vm_compute; lia)) as [_ [[w3 [t3 [H3 R3]]] _]].
    destruct (Hpages w3 _ 2 8%nat R3 ltac:(split; [lia | reflexivity])
                ltac:(vm_compute; lia)) as [_ [[w4 [t4 [H4 R4]]] _]].
    exists w1, w2, w3, w4, t1, t2, t3, t4.
    split; [exact H1 | split; [exact H2 | split; [exact H3 | exact H4]]].
  - destruct (Hpages MemFs.with_listing MemFs.five_entries 0 8%nat eq_refl
                ltac:(split; [lia | reflexivity]) ltac:(vm_compute; lia))
      as [_ [[w1 [t1 [H1 R1]]] _]].
    destruct (Hpages w1 _ 0 8%nat R1 ltac:(split; [lia | reflexivity])
                ltac:(vm_compute; lia)) as [_ [[w2 [t2 [H2 R2]]] _]].
    exists w1, w2, t1, t2. split; [exact H1 | exact H2].
Defined.

(** Maximum count two against five entries, call after call on one
    descriptor.  The second call returns two entries, not the three that are
    left, the third returns the last one, not an empty result, and only the
    fourth finds the directory exhausted; so for [Readdir] as for
    [Readdirnames]. *)
Lemma Readdir_two_of_five :
  let names w := run MemFs.answer (Readdirnames 8 MemFs.descriptor 2) w in
  let files w := run MemFs.answer (Readdir 8 MemFs.descriptor 2) w in
  let after {A : Type} (r : outcome A * MemFs.world * list event) := snd (fst r) in
  let count {A : Type} (r : outcome (list A * Error) * MemFs.world * list event) :=
    match fst (fst r) with
    | Done (l, nil_error) => Some (List.length l)
    | _ => None
    end in
  let n1 := names MemFs.with_listing in
  let n2 := names (after n1) in
  let n3 := names (after n2) in
  let n4 := names (after n3) in
  let f1 := files MemFs.with_listing in
  let f2 := files (after f1) in
  let f3 := files (after f2) in
  let f4 := files (after f3) in
  MemFs.remaining (fd MemFs.descriptor) MemFs.with_listing = Some MemFs.five_entries /\
  List.length MemFs.five_entries = 5%nat /\
  fst (fst n1) = Done (["one"; "two"], nil_error) /\
  fst (fst n2) = Done (["three"; "four"], nil_error) /\
  fst (fst n2) <> Done (["three"; "four"; "five"], nil_error) /\
  fst (fst n3) = Done (["five"], nil_error) /\
  fst (fst n3) <> Done ([], nil_error) /\
  fst (fst n4) = Done ([], nil_error) /\
  map count [f1; f2; f3; f4] = [Some 2; Some 2; Some 1; Some 0]%nat.
Proof.
  intros names files after count n1 n2 n3 n4 f1 f2 f3 f4.
  split; [reflexivity |]. split; [reflexivity |].
  split; [reflexivity |]. split; [reflexivity |].
  split; [vm_compute; discriminate |]. split; [reflexivity |].
  split; [vm_compute; discriminate |]. split; [reflexivity |].
  vm_compute. reflexivity.
Qed.

(** The attribute [user.tag] of [/a/f], four bytes long. *)
Lemma xattr_size_query_witness :
  let value := list_ascii_of_string "blue" in
  let w := MemFs.with_file in
  ((exists errno,
       run MemFs.answer (Getxattr MemFs.volume "/a/f" "user.tag" []) w
       = (Done (4, nil_error, []), w,
          [Ev (glfs_getxattr (fs MemFs.volume) "/a/f" "user.tag" NULL 0) (4, [], errno)])) /\
   (forall dest, 4 <= len dest < 2 ^ 63 ->
      exists tr,
        run MemFs.answer (Getxattr MemFs.volume "/a/f" "user.tag" dest) w
        = (Done (4, nil_error, fill dest value), w, tr))) /\
  ((exists errno,
       run MemFs.answer (Fgetxattr MemFs.descriptor "user.tag" []) w
       = (Done (4, nil_error, []), w,
          [Ev (glfs_fgetxattr (fd MemFs.descriptor) "user.tag" NULL 0) (4, [], errno)])) /\
   (forall dest, 4 <= len dest < 2 ^ 63 ->
      exists tr,
        run MemFs.answer (Fgetxattr MemFs.descriptor "user.tag" dest) w
        = (Done (4, nil_error, fill dest value), w, tr))).
Proof.
  exact (xattr_size_query MemFs.world MemFs.answer MemFs.with_file MemFs.volume
           MemFs.descriptor "/a/f" "user.tag" (list_ascii_of_string "blue")
           MemFs_getxattr_serves MemFs_fgetxattr_serves).
Defined.

(** Opening the directory [/a] and the regular file [/a/f]. *)
Lemma Open_directory_flag_witness :
  (exists w',
      run MemFs.answer (Open MemFs.volume "/a" 0) MemFs.with_file
      = (Done (Some {| name := "/a"; File_Fd := {| fd := Some 4%nat |}; isDir := true |},
               nil_error), w',
         [Ev (glfs_open (fs MemFs.volume) "/a" (C_int 0)) (None, EISDIR);
          Ev (glfs_opendir (fs MemFs.volume) "/a") (Some 4%nat, 0)])) /\
  (exists w',
      run MemFs.answer (OpenFile MemFs.volume "/a/f" 0 420) MemFs.with_file
      = (Done (Some {| name := "/a/f"; File_Fd := {| fd := Some 4%nat |}; isDir := false |},
               nil_error), w',
         [Ev (glfs_open (fs MemFs.volume) "/a/f" (C_int 0)) (Some 4%nat, 0)])).
Proof.
  split.
  - eexists.
    apply (proj1 (Open_directory_flag MemFs.world MemFs.answer MemFs.with_file
                    MemFs.volume "/a" 0 420) None EISDIR MemFs.with_file eq_refl);
      reflexivity.
  - eexists.
    apply (proj2 (Open_directory_flag MemFs.world MemFs.answer MemFs.with_file
                    MemFs.volume "/a/f" 0 420) (Some 4%nat) 0 _ eq_refl);
      [discriminate | reflexivity].
Defined.

(** * More properties of the code *)

(** ** What [MkdirAll] calls *)

Lemma starts_refl (path : string) : starts path path.
Proof.
  exists "". induction path as [| c path IH]; cbn; [reflexivity | now rewrite <- IH].
Qed.

Lemma append_assoc (a b c : string) : ((a ++ b) ++ c = a ++ (b ++ c))%string.
Proof.
  induction a as [| x a IH]; cbn; [reflexivity | now rewrite IH].
Qed.

Lemma starts_trans (path p q : string) : starts path p -> starts p q -> starts path q.
Proof.
  intros [r1 ->] [r2 ->]. exists (r2 ++ r1)%string. apply append_assoc.
Qed.

Lemma starts_substring (path : string) : forall n, starts path (substring 0 n path).
Proof.
  induction path as [| c path IH]; intros [| n]; cbn.
  - exists "". reflexivity.
  - exists "". reflexivity.
  - exists (String c path). reflexivity.
  - destruct (IH n) as [rest Hrest]. exists rest. cbn. now rewrite <- Hrest.
Qed.

Lemma call_of_MkdirAll_parent {ST : StatTranslator} (v : Volume)
    (path parent : string) (perm : FileMode) (e : event) :
  starts path parent ->
  call_of_MkdirAll v parent perm e -> call_of_MkdirAll v path perm e.
Proof.
  intros Hstarts. destruct e as [X c x]. destruct c; cbn; try contradiction.
  - intros [Hf Hp]. split; [exact Hf | exact (starts_trans _ _ _ Hstarts Hp)].
  - intros [Hf Hp]. split; [exact Hf | exact (starts_trans _ _ _ Hstarts Hp)].
  - intros [Hf [Hp Hm]].
    split; [exact Hf | split; [exact (starts_trans _ _ _ Hstarts Hp) | exact Hm]].
Qed.

Section MkdirAllCalls.

Context {ST : StatTranslator} {W : Type} (h : handler W).

Lemma create_target_calls_target (v : Volume) (path : string) (perm : FileMode) (w : W) :
  Forall (call_of_MkdirAll v path perm) (snd (run h (create_target v path perm) w)).
Proof.
  destruct (h _ (glfs_mkdir (fs v) path (C_mode_t (posixMode perm))) w)
    as [[ret errno] w1] eqn:Hmk.
  destruct (Z.eq_dec ret 0) as [-> | Hret].
  - rewrite (create_target_created h _ _ _ _ _ _ Hmk). cbn [snd].
    constructor; [| constructor].
    cbn. repeat split. apply starts_refl.
  - destruct (h _ (glfs_lstat (fs v) path) w1) as [[[ret1 written1] errno1] w2] eqn:Hls.
    rewrite (create_target_failed h _ _ _ _ _ _ _ _ _ _ _ Hmk Hret Hls). cbn [snd].
    constructor; [| constructor; [| constructor]]; cbn; repeat split; apply starts_refl.
Qed.

(** The trace of the slow path: the stat, the calls of the parent step, and
    then nothing or the calls of the last step. *)
Lemma slow_path_trace (v : Volume) (path : string) (perm : FileMode)
    (answer : Z * option Stat_t * Z) (parent : outcome Error * W * list event) :
  exists tail,
    snd (let '(o, w2, tr) :=
           and_then parent
             (fun err w2 =>
                if negb (is_nil err) then (Done err, w2, [])
                else run h (create_target v path perm) w2) in
         (o, w2, Ev (glfs_stat (fs v) path) answer :: tr))
    = Ev (glfs_stat (fs v) path) answer :: snd parent ++ tail /\
    Forall (call_of_MkdirAll v path perm) tail.
Proof.
  destruct parent as [[[err | e |] wp] trp]; cbn [and_then snd].
  - destruct (negb (is_nil err)).
    + exists []. split; [reflexivity | constructor].
    + pose proof (create_target_calls_target v path perm wp) as Hct.
      destruct (run h (create_target v path perm) wp) as [[o2 w2] tr2].
      exists tr2. split; [reflexivity | exact Hct].
  - exists []. rewrite app_nil_r. split; [reflexivity | constructor].
  - exists []. rewrite app_nil_r. split; [reflexivity | constructor].
Qed.

Lemma MkdirAll_at_calls_stay (v : Volume) (perm : FileMode) (depth : nat) :
  forall (path : string) (w : W),
    Forall (call_of_MkdirAll v path perm) (snd (run h (MkdirAll_at depth v path perm) w)).
Proof.
  assert (forall path answer,
             call_of_MkdirAll v path perm (Ev (glfs_stat (fs v) path) answer)) as Hstat_ok.
  { intros path answer. cbn. split; [reflexivity | apply starts_refl]. }
  induction depth as [| depth IH]; intros path w;
    destruct (h _ (glfs_stat (fs v) path) w) as [[[ret written] errno] w1] eqn:Hstat;
    destruct (Z.lt_ge_cases ret 0) as [Hret | Hret];
    try (rewrite (MkdirAll_at_found h _ _ _ _ _ _ _ _ _ Hstat Hret); cbn [snd];
         constructor; [apply Hstat_ok | constructor]);
    rewrite (MkdirAll_at_missing h _ _ _ _ _ _ _ _ _ Hstat Hret).
  - destruct (slow_path_trace v path perm (ret, written, errno)
                (if (1 <? element_start path)%nat
                 then (OutOfGas, w1, []) else (Done nil_error, w1, [])))
      as [tail [-> Htail]].
    constructor; [apply Hstat_ok |]. apply Forall_app. split; [| exact Htail].
    destruct (1 <? element_start path)%nat; constructor.
  - destruct (slow_path_trace v path perm (ret, written, errno)
                (if (1 <? element_start path)%nat
                 then run h (MkdirAll_at depth v (parent_path path) perm) w1
                 else (Done nil_error, w1, [])))
      as [tail [-> Htail]].
    constructor; [apply Hstat_ok |]. apply Forall_app. split; [| exact Htail].
    destruct (1 <? element_start path)%nat; [| constructor].
    eapply Forall_impl; [| apply IH].
    intros e. apply call_of_MkdirAll_parent. apply starts_substring.
Qed.

End MkdirAllCalls.

(** [MkdirAll] only makes stat, non-following stat and create calls, all on
    the handle of the volume and each about a beginning of the path it was
    given; every create call carries the mode made of the one [perm]. *)
Theorem MkdirAll_calls_stay_on_path :
  forall {ST : StatTranslator} (W : Type) (h : handler W) (w : W)
         (v : Volume) (path : string) (perm : FileMode),
    Forall (call_of_MkdirAll v path perm) (snd (run h (MkdirAll v path perm) w)).
Proof.
  intros ST W h w v path perm. apply MkdirAll_at_calls_stay.
Qed.

(** ** What [MkdirAll] leaves behind *)

(** When nobody else changes the volume and [MkdirAll] returns nil, the path
    is a directory afterwards: the next stat says so. *)
Theorem MkdirAll_makes_directory :
  forall {ST : StatTranslator} (W : Type) (h : handler W) (v : Volume),
    namespace_contract h v ->
    forall (path : string) (perm : FileMode) (w w1 : W) (tr : list event),
      run h (MkdirAll v path perm) w = (Done nil_error, w1, tr) ->
      reports_directory path (fst (h _ (glfs_stat (fs v) path) w1)).
Proof.
  intros ST W h v [Hstat_ro Hlstat_ro Hmkdir Hlstat_stat] path perm w w1 tr Hrun.
  destruct (h _ (glfs_stat (fs v) path) w) as [[[ret written] errno] w0] eqn:Hstat.
  pose proof (Hstat_ro path w) as Hw0. rewrite Hstat in Hw0. cbn in Hw0. subst w0.
  destruct (Z.lt_ge_cases ret 0) as [Hret | Hret].
  - rewrite (MkdirAll_missing h _ _ _ _ _ _ _ _ Hstat Hret) in Hrun.
    destruct (if (1 <? element_start path)%nat
              then run h (MkdirAll v (parent_path path) perm) w
              else (Done nil_error, w, [])) as [[[err | e |] wp] trp];
      cbn [and_then] in Hrun; try discriminate.
    destruct err as [| e | op p e]; cbn [is_nil negb] in Hrun; try discriminate.
    destruct (h _ (glfs_mkdir (fs v) path (C_mode_t (posixMode perm))) wp)
      as [[retm errnom] w3] eqn:Hmk.
    destruct (Z.eq_dec retm 0) as [-> | Hretm].
    + rewrite (create_target_created h _ _ _ _ _ _ Hmk) in Hrun.
      inversion Hrun; subst. apply (Hmkdir _ _ _ _ _ Hmk).
    + destruct (h _ (glfs_lstat (fs v) path) w3) as [[[ret1 written1] errno1] w4] eqn:Hls.
      pose proof (Hlstat_ro path w3) as Hw4. rewrite Hls in Hw4. cbn in Hw4. subst w4.
      rewrite (create_target_failed h _ _ _ _ _ _ _ _ _ _ _ Hmk Hretm Hls) in Hrun.
      destruct (ret1 <? 0) eqn:Hret1.
      * destruct (errno1 =? 0); inversion Hrun.
      * apply Z.ltb_ge in Hret1.
        destruct (IsDir (fileInfoFromStat (stored zero_Stat_t written1) path)) eqn:Hd;
          inversion Hrun; subst.
        apply Hlstat_stat. rewrite Hls. cbn. split; [lia | exact Hd].
  - rewrite (MkdirAll_found h _ _ _ _ _ _ _ _ Hstat Hret) in Hrun.
    destruct (IsDir (fileInfoFromStat (stored zero_Stat_t written) path)) eqn:Hd;
      inversion Hrun; subst.
    rewrite Hstat. cbn. split; [lia | exact Hd].
Qed.

Lemma MkdirAll_makes_directory_witness :
  let w1 := snd (fst (run MemFs.answer (MkdirAll MemFs.volume "/a/b/" 493) MemFs.with_file)) in
  reports_directory "/a/b/" (fst (MemFs.answer _ (glfs_stat (fs MemFs.volume) "/a/b/") w1)).
Proof.
  intros w1.
  apply (MkdirAll_makes_directory MemFs.world MemFs.answer MemFs.volume
           MemFs_namespace_contract "/a/b/" 493 MemFs.with_file w1
           (snd (run MemFs.answer (MkdirAll MemFs.volume "/a/b/" 493) MemFs.with_file))).
  vm_compute. reflexivity.
Defined.

(** ** When [MkdirAll] panics *)

Section MkdirAllPanics.

Context {ST : StatTranslator} {W : Type} (h : handler W).

Lemma create_target_panics (v : Volume) (path : string) (perm : FileMode)
    (w w' : W) (e : runtime_error) (tr : list event) :
  run h (create_target v path perm) w = (Panicked e, w', tr) ->
  e = nil_dereference /\
  exists tr0 last, tr = tr0 ++ [last] /\ is_lstat_failure_without_errno last.
Proof.
  intros Hrun.
  destruct (h _ (glfs_mkdir (fs v) path (C_mode_t (posixMode perm))) w)
    as [[ret errno] w1] eqn:Hmk.
  destruct (Z.eq_dec ret 0) as [-> | Hret].
  - rewrite (create_target_created h _ _ _ _ _ _ Hmk) in Hrun. discriminate.
  - destruct (h _ (glfs_lstat (fs v) path) w1) as [[[ret1 written1] errno1] w2] eqn:Hls.
    rewrite (create_target_failed h _ _ _ _ _ _ _ _ _ _ _ Hmk Hret Hls) in Hrun.
    destruct (ret1 <? 0) eqn:Hret1.
    + destruct (Z.eqb_spec errno1 0) as [He | He]; [| discriminate].
      inversion Hrun; subst. split; [reflexivity |].
      exists [Ev (glfs_mkdir (fs v) path (C_mode_t (posixMode perm))) (ret, errno)],
        (Ev (glfs_lstat (fs v) path) (ret1, written1, 0)).
      split; [reflexivity |]. cbn. apply Z.ltb_lt in Hret1. split; [exact Hret1 | reflexivity].
    + destruct (IsDir _); discriminate.
Qed.

Lemma MkdirAll_at_panics (v : Volume) (perm : FileMode) (depth : nat) :
  forall (path : string) (w w' : W) (e : runtime_error) (tr : list event),
    run h (MkdirAll_at depth v path perm) w = (Panicked e, w', tr) ->
    e = nil_dereference /\
    exists tr0 last, tr = tr0 ++ [last] /\ is_lstat_failure_without_errno last.
Proof.
  induction depth as [| depth IH]; intros path w w' e tr Hrun;
    destruct (h _ (glfs_stat (fs v) path) w) as [[[ret written] errno] w1] eqn:Hstat;
    destruct (Z.lt_ge_cases ret 0) as [Hret | Hret];
    try (rewrite (MkdirAll_at_found h _ _ _ _ _ _ _ _ _ Hstat Hret) in Hrun;
         discriminate);
    rewrite (MkdirAll_at_missing h _ _ _ _ _ _ _ _ _ Hstat Hret) in Hrun;
    destruct (1 <? element_start path)%nat.
  - cbn in Hrun. discriminate.
  - cbn [and_then is_nil negb] in Hrun.
    destruct (run h (create_target v path perm) w1) as [[o w2] tr2] eqn:Hct.
    inversion Hrun; subst.
    destruct (create_target_panics _ _ _ _ _ _ _ Hct) as [He [tr0 [last [-> Hlast]]]].
    split; [exact He |].
    exists (Ev (glfs_stat (fs v) path) (ret, written, errno) :: tr0), last.
    split; [reflexivity | exact Hlast].
  - destruct (run h (MkdirAll_at depth v (parent_path path) perm) w1)
      as [[[err | e' |] wp] trp] eqn:HP; cbn [and_then] in Hrun.
    + destruct (negb (is_nil err)); [discriminate |].
      destruct (run h (create_target v path perm) wp) as [[o w2] tr2] eqn:Hct.
      inversion Hrun; subst.
      destruct (create_target_panics _ _ _ _ _ _ _ Hct) as [He [tr0 [last [-> Hlast]]]].
      split; [exact He |].
      exists (Ev (glfs_stat (fs v) path) (ret, written, errno) :: trp ++ tr0), last.
      split; [cbn; now rewrite app_assoc | exact Hlast].
    + inversion Hrun; subst.
      destruct (IH _ _ _ _ _ HP) as [He [tr0 [last [-> Hlast]]]].
      split; [exact He |].
      exists (Ev (glfs_stat (fs v) path) (ret, written, errno) :: tr0), last.
      split; [reflexivity | exact Hlast].
    + discriminate.
  - cbn [and_then is_nil negb] in Hrun.
    destruct (run h (create_target v path perm) w1) as [[o w2] tr2] eqn:Hct.
    inversion Hrun; subst.
    destruct (create_target_panics _ _ _ _ _ _ _ Hct) as [He [tr0 [last [-> Hlast]]]].
    split; [exact He |].
    exists (Ev (glfs_stat (fs v) path) (ret, written, errno) :: tr0), last.
    split; [reflexivity | exact Hlast].
Qed.

End MkdirAllPanics.

(** [MkdirAll] panics in one situation only: the re-check after a failed
    create failed too and left [errno] at zero.  [Lstat] then returns neither
    metadata nor an error, and [MkdirAll] calls [IsDir] on the nil interface.
    The failed re-check is the last call made. *)
Theorem MkdirAll_panics_only_on_silent_lstat :
  forall {ST : StatTranslator} (W : Type) (h : handler W) (v : Volume)
         (path : string) (perm : FileMode) (w w' : W) (e : runtime_error)
         (tr : list event),
    run h (MkdirAll v path perm) w = (Panicked e, w', tr) ->
    e = nil_dereference /\
    exists tr0 last, tr = tr0 ++ [last] /\ is_lstat_failure_without_errno last.
Proof.
  intros ST W h v path perm w w' e tr Hrun.
  exact (MkdirAll_at_panics h v perm _ _ _ _ _ _ Hrun).
Qed.

(** Against a library that fails every call without setting [errno], the
    panic happens. *)
Lemma MkdirAll_panics_witness :
  nil_dereference = nil_dereference /\
  exists tr0 last,
    [Ev (glfs_stat (fs MemFs.volume) "dir") (-1, None, 0);
     Ev (glfs_mkdir (fs MemFs.volume) "dir" (C_mode_t (posixMode 493))) (-1, 0);
     Ev (glfs_lstat (fs MemFs.volume) "dir") (-1, None, 0)] = tr0 ++ [last] /\
    is_lstat_failure_without_errno last.
Proof.
  apply (MkdirAll_panics_only_on_silent_lstat unit silent_failure MemFs.volume
           "dir" 493 tt tt).
  reflexivity.
Defined.

(** ** Bounds of a directory read *)

Lemma Readdir_loop_bounds {ST : StatTranslator} {W : Type} (h : handler W) (f : Fd) (n : Z) :
  forall (gas : nat) (w : W) (i : Z) (stat : Stat_t) (files0 : list FileInfo)
         (files : list FileInfo) (err : Error) (w' : W) (tr : list event),
    run h (Readdir_loop gas f n i stat files0) w = (Done (files, err), w', tr) ->
    Forall (is_readdirplus_of f) tr /\
    (err <> nil_error -> files = []) /\
    (err = nil_error ->
     exists more, files = files0 ++ more /\ (List.length more <= List.length tr)%nat) /\
    (n <> 0 -> 0 <= i <= n -> n < 2 ^ 63 -> Z.of_nat (List.length tr) <= n - i) /\
    (n < 0 -> 0 <= i -> tr = []).
Proof.
  induction gas as [| gas IH]; intros w i stat files0 files err w' tr Hrun;
    cbn [Readdir_loop] in Hrun; [discriminate |].
  destruct ((n =? 0) || (i <? n)) eqn:Hcond.
  - rewrite run_bind, run_cgo in Hrun.
    destruct (h _ (glfs_readdirplus (fd f)) w) as [[[d written] errno] w1] eqn:Hcall.
    cbn [fst snd and_then] in Hrun. unfold cgo_err in Hrun.
    assert (n <> 0 -> 0 <= i <= n -> i < n) as Hlt.
    { intros Hn0 Hi. apply Z.eqb_neq in Hn0. rewrite Hn0 in Hcond.
      cbn [orb] in Hcond. now apply Z.ltb_lt in Hcond. }
    assert (n < 0 -> 0 <= i -> False) as Hneg.
    { intros Hn Hi. destruct (Z.eqb_spec n 0); [lia |].
      cbn [orb] in Hcond. apply Z.ltb_lt in Hcond. lia. }
    destruct (errno =? 0); cbn [is_nil negb] in Hrun.
    + destruct d as [dirent |].
      * destruct (run h (Readdir_loop gas f n (int (i + 1)) (stored stat written)
                           (files0 ++ [fileInfoFromStat (stored stat written)
                                         (direntName dirent)])) w1)
          as [[o w2] tr2] eqn:Hrec.
        inversion Hrun; subst. clear Hrun.
        destruct (IH _ _ _ _ _ _ _ _ Hrec) as [Hcalls [Herr [Hok [Hbound _]]]].
        split; [constructor; [reflexivity | exact Hcalls] |].
        split; [exact Herr |]. split.
        -- intros He. destruct (Hok He) as [more [-> Hmore]].
           exists (fileInfoFromStat (stored stat written) (direntName dirent) :: more).
           rewrite <- app_assoc. split; [reflexivity | cbn; lia].
        -- split; [| intros Hn Hi; exfalso; exact (Hneg Hn Hi)].
           intros Hn0 Hi Hn. specialize (Hlt Hn0 Hi).
           rewrite (int_succ i n) in Hbound by lia.
           specialize (Hbound Hn0 ltac:(lia) Hn). cbn [List.length]. lia.
      * inversion Hrun; subst. clear Hrun.
        split; [constructor; [reflexivity | constructor] |].
        split; [intros He; now contradiction He |]. split.
        -- intros _. exists []. rewrite app_nil_r. split; [reflexivity | cbn; lia].
        -- split; [| intros Hn Hi; exfalso; exact (Hneg Hn Hi)].
           intros Hn0 Hi Hn. specialize (Hlt Hn0 Hi). cbn. lia.
    + inversion Hrun; subst. clear Hrun.
      split; [constructor; [reflexivity | constructor] |].
      split; [reflexivity |]. split; [discriminate |].
      split; [| intros Hn Hi; exfalso; exact (Hneg Hn Hi)].
      intros Hn0 Hi Hn. specialize (Hlt Hn0 Hi). cbn. lia.
  - inversion Hrun; subst. clear Hrun.
    split; [constructor |]. split; [intros He; now contradiction He |]. split.
    + intros _. exists []. rewrite app_nil_r. split; [reflexivity | cbn; lia].
    + split; [| reflexivity]. intros Hn0 Hi Hn. cbn. lia.
Qed.


Lemma Readdirnames_loop_bounds {W : Type} (h : handler W) (f : Fd) (n : Z) :
  forall (gas : nat) (w : W) (i : Z) (files0 : list string)
         (files : list string) (err : Error) (w' : W) (tr : list event),
    run h (Readdirnames_loop gas f n i files0) w = (Done (files, err), w', tr) ->
    Forall (is_readdir_of f) tr /\
    (err <> nil_error -> files = []) /\
    (err = nil_error ->
     exists more, files = files0 ++ more /\ (List.length more <= List.length tr)%nat) /\
    (n <> 0 -> 0 <= i <= n -> n < 2 ^ 63 -> Z.of_nat (List.length tr) <= n - i) /\
    (n < 0 -> 0 <= i -> tr = []).
Proof.
  induction gas as [| gas IH]; intros w i files0 files err w' tr Hrun;
    cbn [Readdirnames_loop] in Hrun; [discriminate |].
  destruct ((n =? 0) || (i <? n)) eqn:Hcond.
  - rewrite run_bind, run_cgo in Hrun.
    destruct (h _ (glfs_readdir (fd f)) w) as [[d errno] w1] eqn:Hcall.
    cbn [fst snd and_then] in Hrun. unfold cgo_err in Hrun.
    assert (n <> 0 -> 0 <= i <= n -> i < n) as Hlt.
    { intros Hn0 Hi. apply Z.eqb_neq in Hn0. rewrite Hn0 in Hcond.
      cbn [orb] in Hcond. now apply Z.ltb_lt in Hcond. }
    assert (n < 0 -> 0 <= i -> False) as Hneg.
    { intros Hn Hi. destruct (Z.eqb_spec n 0); [lia |].
      cbn [orb] in Hcond. apply Z.ltb_lt in Hcond. lia. }
    destruct (errno =? 0); cbn [is_nil negb] in Hrun.
    + destruct d as [dirent |].
      * destruct (run h (Readdirnames_loop gas f n (int (i + 1))
                           (files0 ++ [direntName dirent])) w1)
          as [[o w2] tr2] eqn:Hrec.
        inversion Hrun; subst. clear Hrun.
        destruct (IH _ _ _ _ _ _ _ Hrec) as [Hcalls [Herr [Hok [Hbound _]]]].
        split; [constructor; [reflexivity | exact Hcalls] |].
        split; [exact Herr |]. split.
        -- intros He. destruct (Hok He) as [more [-> Hmore]].
           exists (direntName dirent :: more).
           rewrite <- app_assoc. split; [reflexivity | cbn; lia].
        -- split; [| intros Hn Hi; exfalso; exact (Hneg Hn Hi)].
           intros Hn0 Hi Hn. specialize (Hlt Hn0 Hi).
           rewrite (int_succ i n) in Hbound by lia.
           specialize (Hbound Hn0 ltac:(lia) Hn). cbn [List.length]. lia.
      * inversion Hrun; subst. clear Hrun.
        split; [constructor; [reflexivity | constructor] |].
        split; [intros He; now contradiction He |]. split.
        -- intros _. exists []. rewrite app_nil_r. split; [reflexivity | cbn; lia].
        -- split; [| intros Hn Hi; exfalso; exact (Hneg Hn Hi)].
           intros Hn0 Hi Hn. specialize (Hlt Hn0 Hi). cbn. lia.
    + inversion Hrun; subst. clear Hrun.
      split; [constructor; [reflexivity | constructor] |].
      split; [reflexivity |]. split; [discriminate |].
      split; [| intros Hn Hi; exfalso; exact (Hneg Hn Hi)].
      intros Hn0 Hi Hn. specialize (Hlt Hn0 Hi). cbn. lia.
  - inversion Hrun; subst. clear Hrun.
    split; [constructor |]. split; [intros He; now contradiction He |]. split.
    + intros _. exists []. rewrite app_nil_r. split; [reflexivity | cbn; lia].
    + split; [| reflexivity]. intros Hn0 Hi Hn. cbn. lia.
Qed.

(** Whatever the library answers, a read of a directory that returns has
    made reads on its own descriptor only, [Readdir] with [glfs_readdirplus]
    and [Readdirnames] with [glfs_readdir].  It never hands back more entries
    than it made reads, makes never more than [n] reads for a positive [n],
    and no read at all for a negative [n], which gives the empty result with
    a nil error.  When it returns an error, what it had gathered until then
    is dropped: the result is empty. *)
Theorem Readdir_bounds :
  forall {ST : StatTranslator} (W : Type) (h : handler W) (w : W) (f : Fd)
         (gas : nat) (n : Z),
    n < 2 ^ 63 ->
    (forall files err w' tr,
        run h (Readdir gas f n) w = (Done (files, err), w', tr) ->
        Forall (is_readdirplus_of f) tr /\
        (List.length files <= List.length tr)%nat /\
        (err <> nil_error -> files = []) /\
        (0 < n -> Z.of_nat (List.length tr) <= n) /\
        (n < 0 -> tr = [] /\ files = [] /\ err = nil_error)) /\
    (forall names err w' tr,
        run h (Readdirnames gas f n) w = (Done (names, err), w', tr) ->
        Forall (is_readdir_of f) tr /\
        (List.length names <= List.length tr)%nat /\
        (err <> nil_error -> names = []) /\
        (0 < n -> Z.of_nat (List.length tr) <= n) /\
        (n < 0 -> tr = [] /\ names = [] /\ err = nil_error)).
Proof.
  intros ST W h w f gas n Hn. split.
  - intros files err w' tr Hrun.
    destruct (Readdir_loop_bounds h f n _ _ _ _ _ _ _ _ _ Hrun)
      as [Hcalls [Herr [Hok [Hbound Hneg]]]].
    assert (err = nil_error \/ err <> nil_error) as [He | He]
      by (destruct err; [now left | right; discriminate | right; discriminate]).
    + destruct (Hok He) as [more [Hfiles Hmore]]. cbn in Hfiles. subst files.
      split; [exact Hcalls |]. split; [exact Hmore |].
      split; [intros Hcontra; contradiction |].
      split; [intros Hpos; specialize (Hbound ltac:(lia) ltac:(lia) Hn); lia |].
      intros Hlt. specialize (Hneg Hlt ltac:(lia)). subst tr.
      destruct more; [auto | cbn in Hmore; lia].
    + rewrite (Herr He). split; [exact Hcalls |]. split; [cbn; lia |].
      split; [reflexivity |].
      split; [intros Hpos; specialize (Hbound ltac:(lia) ltac:(lia) Hn); lia |].
      intros Hlt. specialize (Hneg Hlt ltac:(lia)). subst tr.
      unfold Readdir in Hrun. destruct gas; [discriminate |]. cbn [Readdir_loop] in Hrun.
      destruct (Z.eqb_spec n 0); [lia |]. destruct (Z.ltb_spec 0 n); [lia |].
      cbn in Hrun. inversion Hrun; subst. now contradiction He.
  - intros files err w' tr Hrun.
    destruct (Readdirnames_loop_bounds h f n _ _ _ _ _ _ _ _ Hrun)
      as [Hcalls [Herr [Hok [Hbound Hneg]]]].
    assert (err = nil_error \/ err <> nil_error) as [He | He]
      by (destruct err; [now left | right; discriminate | right; discriminate]).
    + destruct (Hok He) as [more [Hfiles Hmore]]. cbn in Hfiles. subst files.
      split; [exact Hcalls |]. split; [exact Hmore |].
      split; [intros Hcontra; contradiction |].
      split; [intros Hpos; specialize (Hbound ltac:(lia) ltac:(lia) Hn); lia |].
      intros Hlt. specialize (Hneg Hlt ltac:(lia)). subst tr.
      destruct more; [auto | cbn in Hmore; lia].
    + rewrite (Herr He). split; [exact Hcalls |]. split; [cbn; lia |].
      split; [reflexivity |].
      split; [intros Hpos; specialize (Hbound ltac:(lia) ltac:(lia) Hn); lia |].
      intros Hlt. specialize (Hneg Hlt ltac:(lia)). subst tr.
      unfold Readdirnames in Hrun. destruct gas; [discriminate |].
      cbn [Readdirnames_loop] in Hrun.
      destruct (Z.eqb_spec n 0); [lia |]. destruct (Z.ltb_spec 0 n); [lia |].
      cbn in Hrun. inversion Hrun; subst. now contradiction He.
Qed.

Lemma Readdir_bounds_witness :
  let r := run MemFs.answer (Readdirnames 8 MemFs.descriptor 2) MemFs.with_listing in
  Forall (is_readdir_of MemFs.descriptor) (snd r) /\
  (List.length ["one"; "two"] <= List.length (snd r))%nat /\
  (nil_error <> nil_error -> ["one"; "two"] = []) /\
  (0 < 2 -> Z.of_nat (List.length (snd r)) <= 2) /\
  (2 < 0 -> snd r = [] /\ ["one"; "two"] = [] /\ nil_error = nil_error).
Proof.
  intros r.
  apply (proj2 (Readdir_bounds MemFs.world MemFs.answer MemFs.with_listing
                  MemFs.descriptor 8 2 eq_refl)
           ["one"; "two"] nil_error (snd (fst r)) (snd r)).
  vm_compute. reflexivity.
Defined.

(** ** Opening and creating *)

(** [Open], [OpenFile] and [Create] never panic and return either a file
    that carries the name they were given, with a nil error, or no file and
    a path error about that name ([open], or [create] for [Create]), never
    both and never neither.  [Open] and [OpenFile] make one or two native
    calls, [Create] makes one and never sets the directory flag. *)
Theorem open_returns_file_or_error :
  forall {ST : StatTranslator} (W : Type) (h : handler W) (w : W) (v : Volume)
         (path : string) (flags : Z) (perm : FileMode),
    (let '(out, _, tr) := run h (Open v path flags) w in
     ((exists f, out = Done (Some f, nil_error) /\ name f = path) \/
      (exists cause, out = Done (None, PathError "open" path cause))) /\
     (1 <= List.length tr <= 2)%nat) /\
    (let '(out, _, tr) := run h (OpenFile v path flags perm) w in
     ((exists f, out = Done (Some f, nil_error) /\ name f = path) \/
      (exists cause, out = Done (None, PathError "open" path cause))) /\
     (1 <= List.length tr <= 2)%nat) /\
    (let '(out, _, tr) := run h (Create v path flags perm) w in
     ((exists f, out = Done (Some f, nil_error) /\ name f = path /\ isDir f = false) \/
      (exists cause, out = Done (None, PathError "create" path cause))) /\
     List.length tr = 1%nat).
Proof.
  intros ST W h w v path flags perm.
  assert (forall first : glfs (glfs_fd_ptr * Z),
             let '(out, _, tr) :=
               run h ('(cfd, errno) <- cgo first ;;
                      let err := cgo_err errno in
                      '(isDir, cfd, err) <-
                        (if is_errno err EISDIR then
                           '(cfd, errno) <- cgo (glfs_opendir (fs v) path) ;;
                           Return (true, cfd, cgo_err errno)
                         else Return (false, cfd, err)) ;;
                      if is_NULL cfd then Return (None, PathError "open" path err)
                      else Return (Some {| name := path; File_Fd := {| fd := cfd |};
                                           isDir := isDir |}, nil_error)) w in
             ((exists f, out = Done (Some f, nil_error) /\ name f = path) \/
              (exists cause, out = Done (None, PathError "open" path cause))) /\
             (1 <= List.length tr <= 2)%nat) as Htail.
  { intros first. cbn.
    destruct (h _ first w) as [[cfd errno] w1]. cbn.
    destruct (is_errno (cgo_err errno) EISDIR); cbn.
    - destruct (h _ (glfs_opendir (fs v) path) w1) as [[cfd2 errno2] w2]. cbn.
      destruct cfd2; cbn; (split; [| lia]); [left | right]; eexists; eauto.
    - destruct cfd; cbn; (split; [| lia]); [left | right]; eexists; eauto. }
  split; [exact (Htail (glfs_open (fs v) path (C_int flags))) | split].
  - unfold OpenFile. destruct (Z.land O_CREATE flags =? O_CREATE).
    + exact (Htail (glfs_creat (fs v) path (C_int flags) (C_mode_t (posixMode perm)))).
    + exact (Htail (glfs_open (fs v) path (C_int flags))).
  - unfold Create. cbn.
    destruct (h _ (glfs_creat (fs v) path (C_int flags) (C_mode_t (posixMode perm))) w)
      as [[cfd errno] w1]. cbn.
    destruct cfd; cbn; (split; [| reflexivity]); [left | right]; eexists; eauto.
Qed.

(** [Create] is [OpenFile] with [O_CREATE] set, without the directory
    fallback.  Both make the same create call; when it does not report
    [EISDIR] they return the same file, or on failure the same cause under
    the operation names [create] and [open].  When it reports [EISDIR] with
    no handle, [Create] fails with that cause after its one call, whereas
    [OpenFile] goes on to the directory-open call. *)
Theorem Create_is_OpenFile_without_fallback :
  forall {ST : StatTranslator} (W : Type) (h : handler W) (w w1 : W) (v : Volume)
         (path : string) (flags : Z) (perm : FileMode) (cfd : glfs_fd_ptr) (errno : Z),
    Z.land O_CREATE flags = O_CREATE ->
    h _ (glfs_creat (fs v) path (C_int flags) (C_mode_t (posixMode perm))) w
    = ((cfd, errno), w1) ->
    let call := Ev (glfs_creat (fs v) path (C_int flags) (C_mode_t (posixMode perm)))
                   (cfd, errno) in
    (errno <> EISDIR ->
     match cfd with
     | Some d =>
         run h (Create v path flags perm) w = run h (OpenFile v path flags perm) w
     | None =>
         run h (Create v path flags perm) w
         = (Done (None, PathError "create" path (cgo_err errno)), w1, [call]) /\
         run h (OpenFile v path flags perm) w
         = (Done (None, PathError "open" path (cgo_err errno)), w1, [call])
     end) /\
    (errno = EISDIR ->
     cfd = None ->
     run h (Create v path flags perm) w
     = (Done (None, PathError "create" path (Errno EISDIR)), w1, [call]) /\
     exists answer,
       snd (run h (OpenFile v path flags perm) w)
       = [call; Ev (glfs_opendir (fs v) path) answer]).
Proof.
  intros ST W h w w1 v path flags perm cfd errno Hflag Hcreat call.
  assert (EISDIR <> 0) as Hne by discriminate.
  unfold OpenFile, Create. apply Z.eqb_eq in Hflag. rewrite Hflag.
  cbn. rewrite Hcreat. cbn. rewrite (is_errno_cgo_err errno EISDIR Hne).
  split.
  - intros He. apply Z.eqb_neq in He. rewrite He. cbn.
    destruct cfd; cbn; [reflexivity | split; reflexivity].
  - intros -> ->. cbn. split; [reflexivity |].
    destruct (h _ (glfs_opendir (fs v) path) w1) as [[cfd2 errno2] w2]. cbn.
    exists (cfd2, errno2). destruct cfd2; reflexivity.
Qed.

Lemma Create_is_OpenFile_witness :
  run MemFs.answer (Create MemFs.volume "/a/new" 577 420) MemFs.with_file
  = run MemFs.answer (OpenFile MemFs.volume "/a/new" 577 420) MemFs.with_file.
Proof.
  apply (proj1 (Create_is_OpenFile_without_fallback MemFs.world MemFs.answer
                  MemFs.with_file _ MemFs.volume "/a/new" 577 420 (Some 4%nat) 0
                  eq_refl eq_refl)).
  discriminate.
Defined.

(** ** The parent of a path *)

Lemma append_length (a b : string) :
  String.length (a ++ b) = (String.length a + String.length b)%nat.
Proof.
  induction a as [| c a IH]; cbn; [reflexivity | now rewrite IH].
Qed.

Lemma byte_at_append_left (a b : string) (i : nat) :
  (i < String.length a)%nat -> byte_at (a ++ b) i = byte_at a i.
Proof.
  intros Hi. unfold byte_at. now rewrite <- (append_correct1 a b i Hi).
Qed.

Lemma byte_at_append_right (a b : string) (i : nat) :
  byte_at (a ++ b) (String.length a + i) = byte_at b i.
Proof.
  unfold byte_at. rewrite (append_correct2 a b i).
  now rewrite (Nat.add_comm i (String.length a)).
Qed.

Lemma separators_length (k : nat) : String.length (separators k) = k.
Proof.
  induction k as [| k IH]; cbn; [reflexivity | now rewrite IH].
Qed.

Lemma byte_at_separators (k i : nat) :
  (i < k)%nat -> IsPathSeparator (byte_at (separators k) i) = true.
Proof.
  revert i. induction k as [| k IH]; intros i Hi; [lia |].
  destruct i as [| i]; [reflexivity |].
  apply (IH i). lia.
Qed.

Lemma substring_append_exact (a b : string) :
  substring 0 (String.length a) (a ++ b) = a.
Proof.
  induction a as [| c a IH]; cbn.
  - destruct b; reflexivity.
  - now rewrite IH.
Qed.

(** The first loop walks back over separators. *)
Lemma skip_over_separators (path : string) (lo m : nat) :
  (forall i, (lo <= i < lo + m)%nat -> IsPathSeparator (byte_at path i) = true) ->
  skip_trailing_separators path (lo + m) = skip_trailing_separators path lo.
Proof.
  induction m as [| m IH]; intros Hsep.
  - now rewrite Nat.add_0_r.
  - rewrite Nat.add_succ_r. cbn [skip_trailing_separators].
    rewrite (Hsep (lo + m)%nat) by lia. apply IH. intros i Hi. apply Hsep. lia.
Qed.

(** The second loop walks back over everything else. *)
Lemma scan_over_element (path : string) (lo m : nat) :
  (forall i, (lo <= i < lo + m)%nat -> IsPathSeparator (byte_at path i) = false) ->
  scan_back_over_element path (lo + m) = scan_back_over_element path lo.
Proof.
  induction m as [| m IH]; intros Hsep.
  - now rewrite Nat.add_0_r.
  - rewrite Nat.add_succ_r. cbn [scan_back_over_element].
    rewrite (Hsep (lo + m)%nat) by lia. cbn [negb]. apply IH. intros i Hi. apply Hsep. lia.
Qed.

(** Where the last element starts when the path ends in [name] and [k]
    separators and has [front] before [name]. *)
Lemma element_start_after (front name : string) (k : nat) :
  name <> "" ->
  separator_free name ->
  element_start (front ++ name ++ separators k)
  = scan_back_over_element (front ++ name ++ separators k) (String.length front).
Proof.
  intros Hname Hfree. unfold element_start.
  set (path := (front ++ name ++ separators k)%string).
  assert (String.length name <> 0)%nat as Hn by (destruct name; [congruence | discriminate]).
  assert (forall i, (i < String.length name)%nat ->
                    byte_at path (String.length front + i) = byte_at name i) as Hin.
  { intros i Hi. unfold path.
    rewrite byte_at_append_right. now apply byte_at_append_left. }
  replace (String.length path)
    with ((String.length front + String.length name) + k)%nat
    by (unfold path; rewrite !append_length, separators_length; lia).
  rewrite skip_over_separators.
  - destruct (String.length name) as [| n] eqn:Hlen; [congruence |].
    rewrite Nat.add_succ_r. cbn [skip_trailing_separators].
    rewrite (Hin n) by lia. rewrite (Hfree n) by lia.
    rewrite <- Nat.add_succ_r.
    apply scan_over_element. intros i Hi.
    replace i with (String.length front + (i - String.length front))%nat by lia.
    rewrite Hin by lia. apply Hfree. lia.
  - intros i Hi.
    replace i with (String.length (front ++ name)
                    + (i - (String.length front + String.length name)))%nat
      by (rewrite append_length; lia).
    unfold path. rewrite <- append_assoc, byte_at_append_right.
    apply byte_at_separators. lia.
Qed.

(** The parent [MkdirAll] ensures first.  For a path made of [dir], a
    separator, a name without separators and any number of trailing
    separators, the last element starts right behind [dir] and its
    separator, and the parent is [dir] itself, so there is a parent step
    exactly when [dir] is not empty.  A path that is only a name with
    trailing separators has no parent step. *)
Theorem parent_of_joined_path :
  forall (dir name : string) (k : nat),
    name <> "" ->
    separator_free name ->
    element_start (dir ++ "/" ++ name ++ separators k) = S (String.length dir) /\
    parent_path (dir ++ "/" ++ name ++ separators k) = dir /\
    element_start (name ++ separators k) = 0%nat.
Proof.
  intros dir name k Hname Hfree.
  assert (element_start (dir ++ "/" ++ name ++ separators k) = S (String.length dir))
    as Hstart.
  { rewrite <- (append_assoc dir "/").
    rewrite (element_start_after (dir ++ "/") name k Hname Hfree).
    rewrite append_length. cbn [String.length].
    rewrite Nat.add_1_r. cbn [scan_back_over_element].
    rewrite append_assoc.
    replace (String.length dir) with (String.length dir + 0)%nat at 1 by lia.
    rewrite byte_at_append_right. reflexivity. }
  split; [exact Hstart | split].
  - unfold parent_path. rewrite Hstart. cbn [Nat.sub]. rewrite Nat.sub_0_r.
    apply substring_append_exact.
  - change (name ++ separators k)%string with ("" ++ name ++ separators k)%string.
    rewrite (element_start_after "" name k Hname Hfree). reflexivity.
Qed.

Lemma parent_of_joined_path_witness :
  element_start ("/srv/data" ++ "/" ++ "logs" ++ separators 2) = 10%nat /\
  parent_path ("/srv/data" ++ "/" ++ "logs" ++ separators 2) = "/srv/data" /\
  element_start ("logs" ++ separators 2) = 0%nat.
Proof.
  apply (parent_of_joined_path "/srv/data" "logs" 2).
  - discriminate.
  - intros i Hi. cbn in Hi.
    destruct i as [| [| [| [| i]]]]; [reflexivity .. | lia].
Defined.

(** ** Setting up a volume *)

Lemma exec_and_so {W A B : Type} (h : server W) (m : Prog A) (f : A -> Prog B) (w : W) :
  exec h (and_so m f) w
  = match exec h m w with
    | (Done a, w1, t1) => let '(o, w2, t2) := exec h (f a) w1 in (o, w2, t1 ++ t2)
    | (Panicked e, w1, t1) => (Panicked e, w1, t1)
    | (OutOfGas, w1, t1) => (OutOfGas, w1, t1)
    end.
Proof.
  revert w. induction m as [a | e | X c k IH]; intros w; cbn.
  - destruct (exec h (f a) w) as [[o w2] t2]. reflexivity.
  - reflexivity.
  - destruct (h X c w) as [x w1]. rewrite IH.
    destruct (exec h (k x) w1) as [[[a | e | ] w2] t1]; cbn; try reflexivity.
    destruct (exec h (f a) w2) as [[o w3] t2]. reflexivity.
Qed.

(** The loop of [Init], started at index [i]. *)
Lemma Init_hosts_spec {W : Type} (h : server W) (p : glfs_t_ptr) (total : Z)
    (hosts : list string) :
  forall (i : Z) (w : W),
  exists answers err w',
    exec h (Init_hosts p i total hosts) w = (Done err, w', registrations p hosts answers) /\
    (List.length answers <= List.length hosts)%nat /\
    Forall (fun a => 0 <= fst a) (removelast answers) /\
    (err = plain nil_error <->
     List.length answers = List.length hosts /\ Forall (fun a => 0 <= fst a) answers) /\
    (forall j host ret errno,
        nth_error answers j = Some (ret, errno) ->
        ret < 0 ->
        nth_error hosts j = Some host ->
        err = Errorf "error adding host %d of %d %q as a volserver: %s"
                [fmt_int (i + Z.of_nat j); fmt_int total; fmt_string host;
                 fmt_error (cgo_err errno)]) /\
    ((List.length answers < List.length hosts)%nat ->
     exists ret errno,
       nth_error answers (List.length answers - 1) = Some (ret, errno) /\ ret < 0).
Proof.
  induction hosts as [| host rest IH]; intros i w.
  - exists [], (plain nil_error), w. cbn. repeat split; auto; try lia.
    intros j host ret errno Hj. destruct j; discriminate Hj.
  - cbn [Init_hosts]. rewrite exec_and_so. unfold ask. cbn [exec].
    destruct (h _ (glfs_set_volfile_server p "tcp" host 24007) w) as [[ret errno] w1] eqn:Hcall.
    cbn [exec app].
    destruct (ret <? 0) eqn:Hret.
    + apply Z.ltb_lt in Hret.
      exists [(ret, errno)]. eexists. exists w1. unfold registrations. cbn.
      rewrite combine_nil. split; [reflexivity |].
      split; [lia |]. split; [constructor |]. split; [| split].
      * split; [discriminate |]. intros [_ Hall]. inversion Hall; subst. cbn in *. lia.
      * intros j host' ret' errno' Hj Hneg Hhost.
        destruct j as [| j]; [| destruct j; discriminate Hj].
        cbn in Hj, Hhost. inversion Hj; inversion Hhost; subst.
        now rewrite Z.add_0_r.
      * intros _. exists ret, errno. split; [reflexivity | exact Hret].
    + apply Z.ltb_ge in Hret.
      destruct (IH (i + 1) w1) as [answers [err [w' [Hrun [Hlen [Hpre [Hnil [Hfail Hstop]]]]]]]].
      exists ((ret, errno) :: answers), err, w'. cbn [fst snd]. rewrite Hrun.
      split; [reflexivity |]. split; [cbn; lia |]. split; [| split; [| split]].
      * destruct answers as [| a answers]; [constructor |].
        cbn [removelast] in *. constructor; [exact Hret | exact Hpre].
      * rewrite Hnil. cbn [List.length]. split.
        -- intros [Hl Hall]. split; [lia | constructor; [exact Hret | exact Hall]].
        -- intros [Hl Hall]. inversion Hall; subst. split; [lia | assumption].
      * intros j host' ret' errno' Hj Hneg Hhost.
        destruct j as [| j]; cbn in Hj, Hhost.
        -- inversion Hj; subst. lia.
        -- rewrite (Hfail j host' ret' errno' Hj Hneg Hhost).
           replace (i + 1 + Z.of_nat j) with (i + Z.of_nat (S j)) by lia. reflexivity.
      * intros Hshort. cbn [List.length] in Hshort.
        destruct (Hstop ltac:(lia)) as [ret' [errno' [Hlast Hneg]]].
        exists ret', errno'. split; [| exact Hneg].
        destruct answers as [| a answers]; [discriminate Hlast |].
        cbn [List.length Nat.sub] in Hlast |- *. rewrite Nat.sub_0_r in Hlast.
        exact Hlast.
Qed.

(** [Init] asks for a handle and then registers the hosts in the order
    given, each over tcp at port 24007, until one is refused or none is left;
    it never panics.  Without a handle it registers nothing and reports that
    no mount object was created.  Otherwise it returns nil exactly when every
    host was registered; a refusal ends the loop, and the error then tells
    the index of the refused host, how many hosts there were, the host and
    the cause.  The volume holds the handle in every case. *)
Theorem Init_registers_hosts_in_order :
  forall (W : Type) (h : server W) (w : W) (v : Volume) (volname : string)
         (hosts : list string),
  exists p errno0 answers err w',
    exec h (Init v volname hosts) w
    = (Done ({| fs := p |}, err), w',
       Called (glfs_new volname) (p, errno0) :: registrations p hosts answers) /\
    (p = None -> answers = [] /\ err = Errorf "error creating mount object" []) /\
    (p <> None ->
     (List.length answers <= List.length hosts)%nat /\
     Forall (fun a => 0 <= fst a) (removelast answers) /\
     (err = plain nil_error <->
      List.length answers = List.length hosts /\ Forall (fun a => 0 <= fst a) answers) /\
     (forall j host ret errno,
         nth_error answers j = Some (ret, errno) ->
         ret < 0 ->
         nth_error hosts j = Some host ->
         err = Errorf "error adding host %d of %d %q as a volserver: %s"
                 [fmt_int (Z.of_nat j); fmt_int (len hosts); fmt_string host;
                  fmt_error (cgo_err errno)]) /\
     ((List.length answers < List.length hosts)%nat ->
      exists ret errno,
        nth_error answers (List.length answers - 1) = Some (ret, errno) /\ ret < 0)).
Proof.
  intros W h w v volname hosts. unfold Init. rewrite exec_and_so. unfold ask. cbn [exec].
  destruct (h _ (glfs_new volname) w) as [[p errno0] w1] eqn:Hnew.
  destruct p as [handle |]; cbn [is_NULL fs].
  - destruct (Init_hosts_spec h (Some handle) (len hosts) hosts 0 w1)
      as [answers [err [w' [Hrun Hrest]]]].
    exists (Some handle), errno0, answers, err, w'.
    rewrite exec_and_so, Hrun. cbn. split; [now rewrite app_nil_r |].
    split; [discriminate |]. intros _. exact Hrest.
  - exists None, errno0, [], (Errorf "error creating mount object" []), w1. cbn.
    split; [| split; [auto | intros Hcontra; now contradiction Hcontra]].
    unfold registrations. now rewrite combine_nil.
Qed.

(** When no handle can be had, [Init] stops after the request for it, but
    [InitWithVolfile] goes on: it hands the nil handle to the native call
    that sets the volfile and returns the status of that call. *)
Theorem InitWithVolfile_goes_on_without_handle :
  forall (W : Type) (h : server W) (w w1 : W) (v : Volume) (volname volfile : string)
         (hosts : list string) (errno0 : Z),
    h _ (glfs_new volname) w = ((None, errno0), w1) ->
    exec h (Init v volname hosts) w
    = (Done ({| fs := None |}, Errorf "error creating mount object" []), w1,
       [Called (glfs_new volname) (None, errno0)]) /\
    exists ret errno w2,
      h _ (glfs_set_volfile None volfile) w1 = ((ret, errno), w2) /\
      exec h (InitWithVolfile v volname volfile) w
      = (Done ({| fs := None |}, ret), w2,
         [Called (glfs_new volname) (None, errno0);
          Called (glfs_set_volfile None volfile) (ret, errno)]).
Proof.
  intros W h w w1 v volname volfile hosts errno0 Hnew. split.
  - unfold Init. cbn. rewrite Hnew. reflexivity.
  - unfold InitWithVolfile. cbn. rewrite Hnew. cbn.
    destruct (h _ (glfs_set_volfile None volfile) w1) as [[ret errno] w2] eqn:Hset.
    exists ret, errno, w2. split; reflexivity.
Qed.

Lemma InitWithVolfile_witness :
  exec refusing (Init MemFs.volume "vol" ["a"; "b"]) tt
  = (Done ({| fs := None |}, Errorf "error creating mount object" []), tt,
     [Called (glfs_new "vol") (None, ENOENT)]) /\
  exists ret errno w2,
    refusing _ (glfs_set_volfile None "/etc/vol.vol") tt = ((ret, errno), w2) /\
    exec refusing (InitWithVolfile MemFs.volume "vol" "/etc/vol.vol") tt
    = (Done ({| fs := None |}, ret), w2,
       [Called (glfs_new "vol") (None, ENOENT);
        Called (glfs_set_volfile None "/etc/vol.vol") (ret, errno)]).
Proof.
  exact (InitWithVolfile_goes_on_without_handle unit refusing tt tt MemFs.volume
           "vol" "/etc/vol.vol" ["a"; "b"] ENOENT eq_refl).
Defined.

(** ** Extended attributes with nothing in the buffer *)

(** Setting an attribute to the empty value is not possible: [Setxattr] and
    [Fsetxattr] index the first byte of the value, so with an empty value
    they panic and make no native call.  With a value of at least one byte
    they make one call that carries the value and its length, and return nil
    when the status is zero.  [Listxattr] with an empty destination does not
    panic: it asks with the null pointer and size zero and passes on the
    count. *)
Theorem xattr_calls_with_empty_buffers :
  forall (W : Type) (h : server W) (w : W) (v : Volume) (f : Fd)
         (path attr : string) (flags : Z),
    exec h (Setxattr v path attr [] flags) w = (Panicked (index_out_of_range 0 0), w, []) /\
    exec h (Fsetxattr f attr [] flags) w = (Panicked (index_out_of_range 0 0), w, []) /\
    (forall c data,
        exists ret errno w',
          exec h (Setxattr v path attr (c :: data) flags) w
          = (Done (if ret =? 0 then nil_error else cgo_err errno), w',
             [Called (glfs_setxattr (fs v) path attr (addr_slice (c :: data))
                        (C_size_t (len (c :: data))) (C_int flags)) (ret, errno)])) /\
    (forall c data,
        exists ret errno w',
          exec h (Fsetxattr f attr (c :: data) flags) w
          = (Done (if ret =? 0 then nil_error else cgo_err errno), w',
             [Called (glfs_fsetxattr (fd f) attr (addr_slice (c :: data))
                        (C_size_t (len (c :: data))) (C_int flags)) (ret, errno)])) /\
    (exists ret data errno w',
        exec h (Listxattr v path []) w
        = (Done (ret, cgo_err errno, []), w',
           [Called (glfs_listxattr (fs v) path NULL 0) (ret, data, errno)])).
Proof.
  intros W h w v f path attr flags.
  split; [reflexivity | split; [reflexivity | split; [| split]]].
  - intros c data. unfold Setxattr. cbn [addr_first and_so]. unfold ask. cbn [and_so exec].
    destruct (h _ (glfs_setxattr (fs v) path attr (addr_slice (c :: data))
                     (C_size_t (len (c :: data))) (C_int flags)) w) as [[ret errno] w'].
    exists ret, errno, w'. reflexivity.
  - intros c data. unfold Fsetxattr. cbn [addr_first and_so]. unfold ask. cbn [and_so exec].
    destruct (h _ (glfs_fsetxattr (fd f) attr (addr_slice (c :: data))
                     (C_size_t (len (c :: data))) (C_int flags)) w) as [[ret errno] w'].
    exists ret, errno, w'. reflexivity.
  - unfold Listxattr. cbn.
    destruct (h _ (glfs_listxattr (fs v) path NULL 0) w) as [[[ret data] errno] w'].
    exists ret, data, errno, w'. reflexivity.
Qed.

(** ** Logging *)

(** With an empty name [SetLogging] passes the null pointer as log file and
    does not ask the host.  With any other name it first asks the host for
    the directory of that name; when the host reports an error, that error is
    returned and the native call is not made. *)
Theorem SetLogging_checks_directory_first :
  forall (path_Dir : string -> string) (W : Type) (h : server W) (w : W)
         (v : Volume) (name : string) (logLevel : Z),
    let '(out, _, tr) := exec h (SetLogging path_Dir v name logLevel) w in
    (name = "" ->
     exists ret errno,
       tr = [Called (glfs_set_logging (fs v) None (C_int logLevel)) (ret, errno)] /\
       out = Done (if ret <? 0 then cgo_err errno else nil_error)) /\
    (name <> "" ->
     exists err,
       hd_error tr = Some (Called (os_Stat (path_Dir name)) err) /\
       (err <> nil_error ->
        tr = [Called (os_Stat (path_Dir name)) err] /\ out = Done err) /\
       (err = nil_error ->
        exists ret errno,
          tr = [Called (os_Stat (path_Dir name)) err;
                Called (glfs_set_logging (fs v) (Some name) (C_int logLevel)) (ret, errno)] /\
          out = Done (if ret <? 0 then cgo_err errno else nil_error))).
Proof.
  intros path_Dir W h w v name logLevel. unfold SetLogging.
  destruct (String.eqb_spec name "") as [-> | Hname].
  - cbn.
    destruct (h _ (glfs_set_logging (fs v) None (C_int logLevel)) w) as [[ret errno] w1].
    destruct (ret <? 0) eqn:Hret; cbn;
      (split; [| intros Hcontra; now contradiction Hcontra]);
      intros _; exists ret, errno; rewrite Hret; split; reflexivity.
  - cbn. destruct (h _ (os_Stat (path_Dir name)) w) as [err w1].
    destruct err as [| e | op p e]; cbn.
    + destruct (h _ (glfs_set_logging (fs v) (Some name) (C_int logLevel)) w1)
        as [[ret errno] w2].
      destruct (ret <? 0) eqn:Hret; cbn;
        (split; [intros Hcontra; contradiction |]); intros _;
        exists nil_error; (split; [reflexivity |]);
        (split; [intros Hcontra; now contradiction Hcontra |]); intros _;
        exists ret, errno; rewrite Hret; split; reflexivity.
    + split; [intros Hcontra; contradiction |]. intros _.
      exists (Errno e). split; [reflexivity |].
      split; [intros _; split; reflexivity | discriminate].
    + split; [intros Hcontra; contradiction |]. intros _.
      exists (PathError op p e). split; [reflexivity |].
      split; [intros _; split; reflexivity | discriminate].
Qed.

(** ** Which calls report by status and which by [errno] *)

(** [Chmod], [Chown], [Truncate], [Fchmod], [Fchown] and [Ftruncate] do not
    look at the status of their native call: each makes one call and returns
    nil exactly when [errno] is zero after it.  A call that succeeded but
    left [errno] set is reported as an error, and a call that failed with
    [errno] zero as success. *)
Theorem errno_alone_decides :
  forall {ST : StatTranslator} (W : Type) (h : server W) (w : W) (v : Volume) (f : Fd)
         (path : string) (mode : FileMode) (uid gid size : Z),
    let reports (A : Type) (c : foreign (A * Z)) (prog : Prog Error) :=
      exec h prog w
      = (Done (cgo_err (snd (fst (h _ c w)))), snd (h _ c w), [Called c (fst (h _ c w))]) in
    reports Z (glfs_chmod (fs v) path (C_mode_t (posixMode mode))) (Chmod v path mode) /\
    reports Z (glfs_chown (fs v) path (C_uid_t uid) (C_gid_t gid)) (Chown v path uid gid) /\
    reports Z (glfs_truncate (fs v) path (C_off_t size)) (Truncate v path size) /\
    reports Z (glfs_fchmod (fd f) (C_mode_t mode)) (Fchmod f mode) /\
    reports Z (glfs_fchown (fd f) (C_uid_t uid) (C_gid_t gid)) (Fchown f uid gid) /\
    reports Z (glfs_ftruncate (fd f) (C_off_t size) NULL NULL) (Ftruncate f size) /\
    (forall errno, cgo_err errno = nil_error <-> errno = 0).
Proof.
  intros ST W h w v f path mode uid gid size reports. unfold reports.
  repeat split.
  - unfold Chmod. cbn. destruct (h _ _ w) as [[ret errno] w1]. reflexivity.
  - unfold Chown. cbn. destruct (h _ _ w) as [[ret errno] w1]. reflexivity.
  - unfold Truncate. cbn. destruct (h _ _ w) as [[ret errno] w1]. reflexivity.
  - unfold Fchmod. cbn. destruct (h _ _ w) as [[ret errno] w1]. reflexivity.
  - unfold Fchown. cbn. destruct (h _ _ w) as [[ret errno] w1]. reflexivity.
  - unfold Ftruncate. cbn. destruct (h _ _ w) as [[ret errno] w1]. reflexivity.
  - unfold cgo_err. destruct (Z.eqb_spec errno 0); [intros _; assumption | discriminate].
  - intros ->. reflexivity.
Qed.

(** The functions that look at the status.  [Unlink] and [Rmdir] return nil
    exactly when the call did not fail ([Unlink]: status not negative,
    [Rmdir]: status zero) and a path error with their name and the path
    otherwise, also when [errno] is zero.  [Rename], [Link], [Symlink],
    [Access] and [Fsync] pass on the bare cause of a negative status, and
    [Removexattr], [Fremovexattr] and [Fallocate] that of a non-zero status:
    they return nil when the call did not fail and also when it failed
    without setting [errno]. *)
Theorem error_follows_status :
  forall (W : Type) (h : server W) (w : W) (v : Volume) (f : Fd)
         (path other attr : string) (mode offset length : Z),
    let negative (c : foreign (Z * Z)) (prog : Prog Error) :=
      fst (fst (exec h prog w))
      = Done (if fst (fst (h _ c w)) <? 0 then cgo_err (snd (fst (h _ c w)))
              else nil_error) in
    let nonzero (c : foreign (Z * Z)) (prog : Prog Error) :=
      fst (fst (exec h prog w))
      = Done (if fst (fst (h _ c w)) =? 0 then nil_error
              else cgo_err (snd (fst (h _ c w)))) in
    fst (fst (exec h (Unlink v path) w))
    = Done (if fst (fst (h _ (glfs_unlink (fs v) path) w)) <? 0
            then PathError "unlink" path
                   (cgo_err (snd (fst (h _ (glfs_unlink (fs v) path) w))))
            else nil_error) /\
    fst (fst (exec h (Rmdir v path) w))
    = Done (if fst (fst (h _ (glfs_rmdir (fs v) path) w)) =? 0 then nil_error
            else PathError "rmdir" path
                   (cgo_err (snd (fst (h _ (glfs_rmdir (fs v) path) w))))) /\
    negative (glfs_rename (fs v) path other) (Rename v path other) /\
    negative (glfs_link (fs v) path other) (Link v path other) /\
    negative (glfs_symlink (fs v) path other) (Symlink v path other) /\
    negative (glfs_access (fs v) path (C_int mode)) (Access v path mode) /\
    negative (glfs_fsync (fd f) NULL NULL) (Fsync f) /\
    nonzero (glfs_removexattr (fs v) path attr) (Removexattr v path attr) /\
    nonzero (glfs_fremovexattr (fd f) attr) (Fremovexattr f attr) /\
    nonzero (glfs_fallocate (fd f) (C_int mode) (C_off_t offset) (C_size_t length))
      (Fallocate f mode offset length).
Proof.
  intros W h w v f path other attr mode offset length negative nonzero.
  unfold negative, nonzero.
  repeat split.
  - unfold Unlink. cbn. destruct (h _ _ w) as [[ret errno] w1]. cbn.
    destruct (ret <? 0); reflexivity.
  - unfold Rmdir. cbn. destruct (h _ _ w) as [[ret errno] w1]. cbn.
    destruct (ret =? 0); reflexivity.
  - unfold Rename. cbn. destruct (h _ _ w) as [[ret errno] w1]. cbn.
    destruct (ret <? 0); reflexivity.
  - unfold Link. cbn. destruct (h _ _ w) as [[ret errno] w1]. cbn.
    destruct (ret <? 0); reflexivity.
  - unfold Symlink. cbn. destruct (h _ _ w) as [[ret errno] w1]. cbn.
    destruct (ret <? 0); reflexivity.
  - unfold Access. cbn. destruct (h _ _ w) as [[ret errno] w1]. cbn.
    destruct (ret <? 0); reflexivity.
  - unfold Fsync. cbn. destruct (h _ _ w) as [[ret errno] w1]. cbn.
    destruct (ret <? 0); reflexivity.
  - unfold Removexattr. cbn. destruct (h _ _ w) as [[ret errno] w1]. reflexivity.
  - unfold Fremovexattr. cbn. destruct (h _ _ w) as [[ret errno] w1]. reflexivity.
  - unfold Fallocate. cbn. destruct (h _ _ w) as [[ret errno] w1]. reflexivity.
Qed.
